(** * Blog API: a shallow embedding of [src/main.py] and its specification

    The module-level globals of [main.py] ([posts_db], [comments_db],
    [tags_db], the two counters) and the upload directory form one record,
    [Store]; every route is a function in a small state-and-exception monad
    over that record.  Python dictionaries keep insertion order, which the
    stable sorts of the listing routes observe, so they are association
    lists here; [tags_db] is a finite set.

    Modelling conventions:
    - [int] is [Z] (unbounded, as in Python);
    - [datetime.utcnow()] is an extra argument [now : Z] of each route that
      reads the clock, and [uuid.uuid4()] an extra argument of the upload;
    - text is [string]; [str.lower] and [str.strip] act on the ASCII range
      (letters [A-Z], Python's ASCII whitespace), other characters are left
      alone;
    - request bodies are typed records: a [PostUpdate] field is either left
      unset ([None]) or set to a string, list or boolean; a JSON [null] in
      the body is outside the model, and so are uploads without a file
      name or content type;
    - the upload directory is the list of the file names in it: [exists]
      is membership, writing and [unlink] do not fail;
    - an exception that no handler catches surfaces as [InternalError]
      (HTTP 500), and the mutations made before it persist. *)

From Stdlib Require Import ZArith List Ascii String Lia Permutation Sorted.
From stdpp Require Import base gmap strings list sets sorting.

Local Open Scope Z_scope.

(** ** Text primitives *)

Definition is_upper (c : ascii) : bool :=
  let n := nat_of_ascii c in (65 <=? n)%nat && (n <=? 90)%nat.

Definition lower_ascii (c : ascii) : ascii :=
  if is_upper c then ascii_of_nat (nat_of_ascii c + 32) else c.

(** [s.lower()] *)
Fixpoint lower (s : string) : string :=
  match s with
  | EmptyString => EmptyString
  | String c s' => String (lower_ascii c) (lower s')
  end.

(** [c.isspace()] on the ASCII range: TAB..CR, FS..US and the blank. *)
Definition isspace (c : ascii) : bool :=
  let n := nat_of_ascii c in
  ((9 <=? n)%nat && (n <=? 13)%nat) || ((28 <=? n)%nat && (n <=? 32)%nat).

Fixpoint lstrip (s : string) : string :=
  match s with
  | EmptyString => EmptyString
  | String c s' => if isspace c then lstrip s' else s
  end.

Fixpoint rstrip (s : string) : string :=
  match s with
  | EmptyString => EmptyString
  | String c s' =>
      match rstrip s' with
      | EmptyString => if isspace c then EmptyString else String c EmptyString
      | r => String c r
      end
  end.

(** [s.strip()] *)
Definition strip (s : string) : string := rstrip (lstrip s).

(** Truth value of a string: [bool(s)]. *)
Definition str_truthy (s : string) : bool :=
  match s with EmptyString => false | _ => true end.

(** [s.startswith(p)] *)
Fixpoint startswith (p s : string) : bool :=
  match p, s with
  | EmptyString, _ => true
  | String a p', String b s' => if Ascii.eqb a b then startswith p' s' else false
  | String _ _, EmptyString => false
  end.

(** [needle in hay] on strings: [needle] occurs somewhere in [hay]. *)
Fixpoint str_in (needle hay : string) : bool :=
  startswith needle hay ||
  match hay with
  | EmptyString => false
  | String _ hay' => str_in needle hay'
  end.

(** [s.split(sep)] for a one-character separator; never the empty list. *)
Fixpoint split (sep : ascii) (s : string) : list string :=
  match s with
  | EmptyString => [EmptyString]
  | String c s' =>
      if Ascii.eqb c sep then EmptyString :: split sep s'
      else match split sep s' with
           | h :: t => String c h :: t
           | [] => [String c EmptyString]
           end
  end.

(** [s.split(sep)[-1]] *)
Definition last_segment (sep : ascii) (s : string) : string :=
  List.last (split sep s) EmptyString.

(** [x in l] on a list of strings. *)
Definition list_in (x : string) (l : list string) : bool :=
  existsb (String.eqb x) l.

(** ** Dictionaries in insertion order *)

Section Dict.
Context {K V : Type} `{EqDecision K}.

(** [d.get(k)] *)
Fixpoint dict_get (k : K) (d : list (K * V)) : option V :=
  match d with
  | [] => None
  | (k', v) :: d' => if decide (k = k') then Some v else dict_get k d'
  end.

(** [k in d] *)
Definition dict_mem (k : K) (d : list (K * V)) : bool :=
  match dict_get k d with Some _ => true | None => false end.

(** [d[k] = v]: an existing key keeps its position, a new one goes last. *)
Fixpoint dict_set (k : K) (v : V) (d : list (K * V)) : list (K * V) :=
  match d with
  | [] => [(k, v)]
  | (k', v') :: d' =>
      if decide (k = k') then (k, v) :: d' else (k', v') :: dict_set k v d'
  end.

(** [del d[k]], used by the routes only on keys that are present. *)
Definition dict_del (k : K) (d : list (K * V)) : list (K * V) :=
  List.filter (fun kv => negb (bool_decide (kv.1 = k))) d.

(** [d.values()] *)
Definition dict_values (d : list (K * V)) : list V := map snd d.

(** [d.keys()] *)
Definition dict_keys (d : list (K * V)) : list K := map fst d.
End Dict.

(** ** Sorting and slicing *)

Section Sorting.
Context {A : Type}.

(** Stable insertion: [x] goes in front of the first element that does
    not strictly precede it, so among equals the earlier one stays
    first. [prec y x] reads: [y] must come strictly before [x]. *)
Fixpoint insert_by (prec : A -> A -> bool) (x : A) (l : list A) : list A :=
  match l with
  | [] => [x]
  | y :: l' => if prec y x then y :: insert_by prec x l' else x :: y :: l'
  end.

Definition sort_by (prec : A -> A -> bool) (l : list A) : list A :=
  foldr (insert_by prec) [] l.

(** [l.sort(key=key, reverse=True)]: descending, stable. *)
Definition sort_desc (key : A -> Z) (l : list A) : list A :=
  sort_by (fun y x => key x <? key y) l.

(** Index normalisation of a slice bound, as Python does it. *)
Definition slice_bound (len i : Z) : Z :=
  if i <? 0 then Z.max 0 (i + len) else Z.min i len.

(** [l[start:stop]] *)
Definition slice (l : list A) (start stop : Z) : list A :=
  let len := Z.of_nat (length l) in
  let s := slice_bound len start in
  let e := slice_bound len stop in
  take (Z.to_nat (e - s)) (drop (Z.to_nat s) l).
End Sorting.

(** [sorted(l)] on strings: ascending, by character code. *)
Definition sorted_strings (l : list string) : list string :=
  sort_by String.ltb l.

(** ** Data model (the Pydantic models and the module globals) *)

Module Post.
(** The dict stored in [posts_db]; the [Post] model built from it has
    the same fields. *)
Record t := mk {
  id : Z;
  author : string;
  image_url : option string;
  views : Z;
  created_at : Z;
  updated_at : Z;
  title : string;
  content : string;
  tags : list string;
  published : bool
}.

Definition set_views (v : Z) (p : t) : t :=
  mk (id p) (author p) (image_url p) v (created_at p) (updated_at p)
     (title p) (content p) (tags p) (published p).
Definition set_updated_at (u : Z) (p : t) : t :=
  mk (id p) (author p) (image_url p) (views p) (created_at p) u
     (title p) (content p) (tags p) (published p).
Definition set_image_url (i : option string) (p : t) : t :=
  mk (id p) (author p) i (views p) (created_at p) (updated_at p)
     (title p) (content p) (tags p) (published p).
Definition set_title (x : string) (p : t) : t :=
  mk (id p) (author p) (image_url p) (views p) (created_at p) (updated_at p)
     x (content p) (tags p) (published p).
Definition set_content (x : string) (p : t) : t :=
  mk (id p) (author p) (image_url p) (views p) (created_at p) (updated_at p)
     (title p) x (tags p) (published p).
Definition set_tags (x : list string) (p : t) : t :=
  mk (id p) (author p) (image_url p) (views p) (created_at p) (updated_at p)
     (title p) (content p) x (published p).
Definition set_published (x : bool) (p : t) : t :=
  mk (id p) (author p) (image_url p) (views p) (created_at p) (updated_at p)
     (title p) (content p) (tags p) x.
End Post.

Module PostCreate.
(** Request body of [POST /posts], defaults already filled in. *)
Record t := mk {
  title : string;
  content : string;
  tags : list string;
  published : bool
}.
End PostCreate.

Module PostUpdate.
(** Request body of [PUT /posts/{id}]: [None] is a field left unset. *)
Record t := mk {
  title : option string;
  content : option string;
  tags : option (list string);
  published : option bool
}.
End PostUpdate.

Module Comment.
Record t := mk {
  id : Z;
  post_id : Z;
  created_at : Z;
  content : string;
  author : string
}.
End Comment.

Module CommentCreate.
Record t := mk { content : string; author : string }.
End CommentCreate.

Module PaginatedPosts.
Record t := mk {
  items : list Post.t;
  total : Z;
  page : Z;
  page_size : Z;
  total_pages : Z
}.
End PaginatedPosts.

Module PostStats.
Record t := mk {
  total_posts : Z;
  published_posts : Z;
  draft_posts : Z;
  total_views : Z;
  total_comments : Z;
  popular_tags : list (string * Z)
}.
End PostStats.

(** The in-memory databases, and the names of the files under
    [UPLOAD_DIR]. *)
Record Store := mkStore {
  posts_db : list (Z * Post.t);
  comments_db : list (Z * Comment.t);
  tags_db : gset string;
  post_counter : Z;
  comment_counter : Z;
  uploads : list string
}.

Definition empty_store : Store := mkStore [] [] ∅ 0 0 [].

Definition set_posts_db (x : list (Z * Post.t)) (st : Store) : Store :=
  mkStore x (comments_db st) (tags_db st) (post_counter st)
          (comment_counter st) (uploads st).
Definition set_comments_db (x : list (Z * Comment.t)) (st : Store) : Store :=
  mkStore (posts_db st) x (tags_db st) (post_counter st)
          (comment_counter st) (uploads st).
Definition set_tags_db (x : gset string) (st : Store) : Store :=
  mkStore (posts_db st) (comments_db st) x (post_counter st)
          (comment_counter st) (uploads st).
Definition set_post_counter (x : Z) (st : Store) : Store :=
  mkStore (posts_db st) (comments_db st) (tags_db st) x
          (comment_counter st) (uploads st).
Definition set_comment_counter (x : Z) (st : Store) : Store :=
  mkStore (posts_db st) (comments_db st) (tags_db st) (post_counter st)
          x (uploads st).
Definition set_uploads (x : list string) (st : Store) : Store :=
  mkStore (posts_db st) (comments_db st) (tags_db st) (post_counter st)
          (comment_counter st) x.

(** ** Routes run in a state monad with exceptions *)

Inductive error :=
| NotFoundError        (* HTTPException 404 *)
| ValidationError      (* request validation, 422 *)
| InvalidMediaError    (* HTTPException 400 *)
| InternalError.       (* uncaught exception, 500 *)

Inductive result (A : Type) :=
| Ok (a : A)
| Err (e : error).
Arguments Ok {A} a.
Arguments Err {A} e.

Definition M (A : Type) : Type := Store -> result A * Store.

Definition ret {A} (a : A) : M A := fun st => (Ok a, st).
Definition raise {A} (e : error) : M A := fun st => (Err e, st).
Definition bind {A B} (m : M A) (k : A -> M B) : M B :=
  fun st =>
    match m st with
    | (Ok a, st') => k a st'
    | (Err e, st') => (Err e, st')
    end.
Definition gets {A} (f : Store -> A) : M A := fun st => (Ok (f st), st).
Definition modify (f : Store -> Store) : M unit := fun st => (Ok tt, f st).

Notation "x <- m ;; k" := (bind m (fun x => k))
  (at level 100, m at next level, right associativity).
Notation "m ;;; k" := (bind m (fun _ => k))
  (at level 100, right associativity).

(** [[f(x) for x in l]] where [f] may raise. *)
Fixpoint for_each {A B} (f : A -> M B) (l : list A) : M (list B) :=
  match l with
  | [] => ret []
  | x :: l' => y <- f x ;; ys <- for_each f l' ;; ret (y :: ys)
  end.

(** ** Helper functions of [main.py] *)

(** The [title] validator of [PostBase]: [true] when [v] is accepted. *)
Definition title_must_not_be_empty (v : string) : bool :=
  str_truthy (strip v).

(** Building the [Post] response model from a stored dict. [Post] inherits
    the title validator; inside a route its failure is an uncaught
    exception. The other fields are well typed by construction. *)
Definition Post_model (d : Post.t) : M Post.t :=
  if title_must_not_be_empty (Post.title d) then ret d else raise InternalError.

Definition get_post_or_404 (post_id : Z) : M Post.t :=
  post <- gets (fun st => dict_get post_id (posts_db st)) ;;
  match post with
  | Some p => ret p
  | None => raise NotFoundError
  end.

(** The dict that [get_post_or_404] returns is the very object held in
    [posts_db]: a route that assigns to its fields mutates the store, and
    reads it back afterwards. [mutate_post] and [load_post] are those
    accesses through the alias. *)
Definition dict_update {V} (k : Z) (f : V -> V) (d : list (Z * V)) : list (Z * V) :=
  match dict_get k d with
  | Some v => dict_set k (f v) d
  | None => d
  end.

Definition mutate_post (post_id : Z) (f : Post.t -> Post.t) : M unit :=
  modify (fun st => set_posts_db (dict_update post_id f (posts_db st)) st).

Definition load_post (post_id : Z) : M Post.t :=
  post <- gets (fun st => dict_get post_id (posts_db st)) ;;
  match post with
  | Some p => ret p
  | None => raise InternalError
  end.

Definition increment_views (post_id : Z) : M unit :=
  present <- gets (fun st => dict_mem post_id (posts_db st)) ;;
  if (present : bool)
  then mutate_post post_id (fun p => Post.set_views (Post.views p + 1) p)
  else ret tt.

Definition calculate_pagination (total page page_size : Z) : Z :=
  (total + page_size - 1) / page_size.

(** [for tag in tags: tags_db.add(tag.lower())] *)
Definition register_tags (tags : list string) : M unit :=
  modify (fun st =>
    set_tags_db (fold_left (fun s tag => s ∪ {[ lower tag ]}) tags (tags_db st)) st).

(** ** Routes *)

(** [POST /posts]. The body and the [author] query parameter are validated
    before the function body runs. *)
Definition create_post (post : PostCreate.t) (author : string) (now : Z) : M Post.t :=
  if negb (title_must_not_be_empty (PostCreate.title post)) then raise ValidationError
  else if (String.length author <? 3)%nat then raise ValidationError
  else
    modify (fun st => set_post_counter (post_counter st + 1) st) ;;;
    register_tags (PostCreate.tags post) ;;;
    n <- gets post_counter ;;
    let post_data :=
      Post.mk n author None 0 now now
              (PostCreate.title post) (PostCreate.content post)
              (PostCreate.tags post) (PostCreate.published post) in
    modify (fun st => set_posts_db (dict_set n post_data (posts_db st)) st) ;;;
    Post_model post_data.

(** [POST /posts/{post_id}/image]. [uuid] stands for [str(uuid.uuid4())];
    writing the file adds its name to [uploads]. *)
Definition upload_post_image (post_id : Z) (content_type filename uuid : string)
    (now : Z) : M string :=
  _ <- get_post_or_404 post_id ;;
  if negb (startswith "image/" content_type) then raise InvalidMediaError
  else
    let file_extension := last_segment "."%char filename in
    let unique_filename := uuid +:+ "." +:+ file_extension in
    modify (fun st =>
      if list_in unique_filename (uploads st) then st
      else set_uploads (unique_filename :: uploads st) st) ;;;
    mutate_post post_id (Post.set_image_url (Some ("/uploads/" +:+ unique_filename))) ;;;
    mutate_post post_id (Post.set_updated_at now) ;;;
    ret ("/uploads/" +:+ unique_filename).

Definition has_tag (tag : string) (p : Post.t) : bool :=
  list_in (lower tag) (map lower (Post.tags p)).

Definition matches_search (search_lower : string) (p : Post.t) : bool :=
  str_in search_lower (lower (Post.title p))
  || str_in search_lower (lower (Post.content p)).

(** The three [if]s of [get_posts] that narrow [filtered_posts]. *)
Definition filter_posts (tag : option string) (published : option bool)
    (search : option string) (all : list Post.t) : list Post.t :=
  let by_tag :=
    match tag with
    | Some t => if str_truthy t then List.filter (has_tag t) all else all
    | None => all
    end in
  let by_published :=
    match published with
    | Some b => List.filter (fun p => Bool.eqb (Post.published p) b) by_tag
    | None => by_tag
    end in
  match search with
  | Some s =>
      if str_truthy s
      then let search_lower := lower s in
           List.filter (matches_search search_lower) by_published
      else by_published
  | None => by_published
  end.

(** [filtered_posts] of [get_posts] after the sort. *)
Definition filtered_sorted (st : Store) (tag : option string)
    (published : option bool) (search : option string) : list Post.t :=
  sort_desc Post.created_at
    (filter_posts tag published search (dict_values (posts_db st))).

(** [paginated_posts = filtered_posts[start:end]] *)
Definition paginated_posts (filtered_posts : list Post.t) (page page_size : Z) : list Post.t :=
  let start := (page - 1) * page_size in
  let stop := start + page_size in
  slice filtered_posts start stop.

(** [GET /posts]. [Query(1, ge=1)] and [Query(10, ge=1, le=100)] reject the
    request before the body runs. *)
Definition get_posts (page page_size : Z) (tag : option string)
    (published : option bool) (search : option string) : M PaginatedPosts.t :=
  if (page <? 1) || (page_size <? 1) || (100 <? page_size) then raise ValidationError
  else
    filtered_posts <- gets (fun st => filtered_sorted st tag published search) ;;
    let total := Z.of_nat (length filtered_posts) in
    let total_pages := calculate_pagination total page page_size in
    items <- for_each Post_model (paginated_posts filtered_posts page page_size) ;;
    ret (PaginatedPosts.mk items total page page_size total_pages).

(** [GET /posts/{post_id}] *)
Definition get_post (post_id : Z) : M Post.t :=
  _ <- get_post_or_404 post_id ;;
  increment_views post_id ;;;
  post <- load_post post_id ;;
  Post_model post.

(** [for field, value in update_data.items(): post[field] = value] *)
Definition apply_update (u : PostUpdate.t) (p : Post.t) : Post.t :=
  let p := match PostUpdate.title u with Some x => Post.set_title x p | None => p end in
  let p := match PostUpdate.content u with Some x => Post.set_content x p | None => p end in
  let p := match PostUpdate.tags u with Some x => Post.set_tags x p | None => p end in
  match PostUpdate.published u with Some x => Post.set_published x p | None => p end.

(** [PUT /posts/{post_id}] *)
Definition update_post (post_id : Z) (post_update : PostUpdate.t) (now : Z) : M Post.t :=
  _ <- get_post_or_404 post_id ;;
  match PostUpdate.tags post_update with
  | Some tags => register_tags tags
  | None => ret tt
  end ;;;
  mutate_post post_id (apply_update post_update) ;;;
  mutate_post post_id (Post.set_updated_at now) ;;;
  post <- load_post post_id ;;
  Post_model post.

(** [DELETE /posts/{post_id}] *)
Definition delete_post (post_id : Z) : M unit :=
  post <- get_post_or_404 post_id ;;
  match Post.image_url post with
  | Some url =>
      if str_truthy url
      then let image_path := last_segment "/"%char url in
           modify (fun st =>
             if list_in image_path (uploads st)
             then set_uploads
                    (List.filter (fun f => negb (String.eqb f image_path)) (uploads st)) st
             else st)
      else ret tt
  | None => ret tt
  end ;;;
  comments_to_delete <- gets (fun st =>
    dict_keys (List.filter (fun kc => Comment.post_id kc.2 =? post_id) (comments_db st))) ;;
  modify (fun st =>
    set_comments_db
      (fold_left (fun d cid => dict_del cid d) comments_to_delete (comments_db st)) st) ;;;
  modify (fun st => set_posts_db (dict_del post_id (posts_db st)) st) ;;;
  ret tt.

(** [POST /posts/{post_id}/comments] *)
Definition create_comment (post_id : Z) (comment : CommentCreate.t) (now : Z) : M Comment.t :=
  _ <- get_post_or_404 post_id ;;
  modify (fun st => set_comment_counter (comment_counter st + 1) st) ;;;
  n <- gets comment_counter ;;
  let comment_data :=
    Comment.mk n post_id now (CommentCreate.content comment)
               (CommentCreate.author comment) in
  modify (fun st => set_comments_db (dict_set n comment_data (comments_db st)) st) ;;;
  ret comment_data.

(** [GET /posts/{post_id}/comments] *)
Definition get_comments (post_id : Z) : M (list Comment.t) :=
  _ <- get_post_or_404 post_id ;;
  post_comments <- gets (fun st =>
    List.filter (fun c => Comment.post_id c =? post_id) (dict_values (comments_db st))) ;;
  ret (sort_desc Comment.created_at post_comments).

(** [DELETE /comments/{comment_id}] *)
Definition delete_comment (comment_id : Z) : M unit :=
  present <- gets (fun st => dict_mem comment_id (comments_db st)) ;;
  if (present : bool)
  then modify (fun st => set_comments_db (dict_del comment_id (comments_db st)) st)
  else raise NotFoundError.

(** [GET /tags] *)
Definition get_tags : M (list string) :=
  gets (fun st => sorted_strings (elements (tags_db st))).

(** [GET /tags/{tag_name}/posts] *)
Definition get_posts_by_tag (tag_name : string) : M (list Post.t) :=
  tag_posts <- gets (fun st => List.filter (has_tag tag_name) (dict_values (posts_db st))) ;;
  for_each Post_model (sort_desc Post.created_at tag_posts).

(** [tag_counts[tag] = tag_counts.get(tag, 0) + 1] *)
Definition count_tag (tag_counts : list (string * Z)) (tag : string) : list (string * Z) :=
  dict_set tag (default 0 (dict_get tag tag_counts) + 1) tag_counts.

(** The nested loop of [get_stats] that fills [tag_counts]. *)
Definition count_tags (all_posts : list Post.t) : list (string * Z) :=
  fold_left (fun tag_counts post => fold_left count_tag (Post.tags post) tag_counts)
            all_posts [].

(** [GET /stats] *)
Definition get_stats : M PostStats.t :=
  all_posts <- gets (fun st => dict_values (posts_db st)) ;;
  let published := List.filter Post.published all_posts in
  let drafts := List.filter (fun p => negb (Post.published p)) all_posts in
  let total_views := fold_left Z.add (map Post.views all_posts) 0 in
  let tag_counts := count_tags all_posts in
  let popular_tags := slice (sort_desc snd tag_counts) 0 5 in
  n_comments <- gets (fun st => Z.of_nat (length (comments_db st))) ;;
  ret (PostStats.mk (Z.of_nat (length all_posts))
                    (Z.of_nat (length published))
                    (Z.of_nat (length drafts))
                    total_views n_comments popular_tags).

(** ** The API as a transition system *)

Inductive request :=
| Root
| CreatePost (post : PostCreate.t) (author : string) (now : Z)
| UploadPostImage (post_id : Z) (content_type filename uuid : string) (now : Z)
| GetPosts (page page_size : Z) (tag : option string) (published : option bool)
           (search : option string)
| GetPost (post_id : Z)
| UpdatePost (post_id : Z) (post_update : PostUpdate.t) (now : Z)
| DeletePost (post_id : Z)
| CreateComment (post_id : Z) (comment : CommentCreate.t) (now : Z)
| GetComments (post_id : Z)
| DeleteComment (comment_id : Z)
| GetTags
| GetPostsByTag (tag_name : string)
| GetStats.

Inductive response :=
| RWelcome
| RPost (p : Post.t)
| RPosts (l : list Post.t)
| RPage (pg : PaginatedPosts.t)
| RImage (image_url : string)
| RComment (c : Comment.t)
| RComments (l : list Comment.t)
| RTags (l : list string)
| RStats (s : PostStats.t)
| RNoContent.

Definition fmap_M {A B} (f : A -> B) (m : M A) : M B := x <- m ;; ret (f x).

Definition handle (r : request) : M response :=
  match r with
  | Root => ret RWelcome
  | CreatePost post author now => fmap_M RPost (create_post post author now)
  | UploadPostImage post_id content_type filename uuid now =>
      fmap_M RImage (upload_post_image post_id content_type filename uuid now)
  | GetPosts page page_size tag published search =>
      fmap_M RPage (get_posts page page_size tag published search)
  | GetPost post_id => fmap_M RPost (get_post post_id)
  | UpdatePost post_id post_update now => fmap_M RPost (update_post post_id post_update now)
  | DeletePost post_id => fmap_M (fun _ => RNoContent) (delete_post post_id)
  | CreateComment post_id comment now => fmap_M RComment (create_comment post_id comment now)
  | GetComments post_id => fmap_M RComments (get_comments post_id)
  | DeleteComment comment_id => fmap_M (fun _ => RNoContent) (delete_comment comment_id)
  | GetTags => fmap_M RTags get_tags
  | GetPostsByTag tag_name => fmap_M RPosts (get_posts_by_tag tag_name)
  | GetStats => fmap_M RStats get_stats
  end.

(** The store after serving a request, and after a sequence of them. *)
Definition step (st : Store) (r : request) : Store := (handle r st).2.

Definition run (st : Store) (rs : list request) : Store := fold_left step rs st.

Inductive reachable : Store -> Prop :=
| reachable_init : reachable empty_store
| reachable_step st r : reachable st -> reachable (step st r).

(** ** Specification vocabulary *)

(** A stored post that the [Post] model accepts. *)
Definition Post_valid (p : Post.t) : Prop :=
  title_must_not_be_empty (Post.title p) = true.

(** Empty, or whitespace only. *)
Definition blank (s : string) : Prop :=
  Forall (fun c => isspace c = true) (list_ascii_of_string s).

(** [needle] is a substring of [hay]. *)
Definition occurs (needle hay : string) : Prop :=
  exists pre post, hay = pre +:+ needle +:+ post.

(** [tag] equals some tag of [p] up to case. *)
Definition tag_matches (tag : string) (p : Post.t) : Prop :=
  exists x, In x (Post.tags p) /\ lower x = lower tag.

(** What the filters of [get_posts] ask of a post. An empty [tag] is
    treated by the route as no tag at all. *)
Definition passes_filters (tag : option string) (published : option bool)
    (search : option string) (p : Post.t) : Prop :=
  (forall t, tag = Some t -> t <> EmptyString -> tag_matches t p)
  /\ (forall b, published = Some b -> Post.published p = b)
  /\ (forall s, search = Some s ->
        occurs (lower s) (lower (Post.title p))
        \/ occurs (lower s) (lower (Post.content p))).

(** The same with every supplied [tag] taken as a filter, also the empty
    one. *)
Definition passes_supplied_filters (tag : option string) (published : option bool)
    (search : option string) (p : Post.t) : Prop :=
  (forall t, tag = Some t -> tag_matches t p)
  /\ (forall b, published = Some b -> Post.published p = b)
  /\ (forall s, search = Some s ->
        occurs (lower s) (lower (Post.title p))
        \/ occurs (lower s) (lower (Post.content p))).

(** Keys of a dictionary are pairwise distinct. *)
Definition dict_wf {K V} (d : list (K * V)) : Prop := NoDup (dict_keys d).

(** [p] after [n] more views. *)
Definition viewed (p : Post.t) (n : Z) : Post.t :=
  Post.set_views (Post.views p + n) p.

(** [p'] has the fields of [p], the view counter apart. *)
Definition same_but_views (p p' : Post.t) : Prop :=
  Post.id p' = Post.id p /\ Post.author p' = Post.author p
  /\ Post.image_url p' = Post.image_url p
  /\ Post.created_at p' = Post.created_at p
  /\ Post.updated_at p' = Post.updated_at p
  /\ Post.title p' = Post.title p /\ Post.content p' = Post.content p
  /\ Post.tags p' = Post.tags p /\ Post.published p' = Post.published p.

(** The [id] field of a stored post is the key it is stored under. *)
Definition ids_are_keys (st : Store) : Prop :=
  forall k p, In (k, p) (posts_db st) -> Post.id p = k.

(** Every stored comment belongs to a stored post. *)
Definition comments_attached (st : Store) : Prop :=
  forall cid c, In (cid, c) (comments_db st) ->
    dict_get (Comment.post_id c) (posts_db st) <> None.

(** The comments counted post by post. *)
Definition comments_across_posts (st : Store) : Z :=
  fold_right
    (fun k acc =>
       Z.of_nat (length (List.filter (fun c => Comment.post_id c =? k)
                                     (dict_values (comments_db st)))) + acc)
    0 (dict_keys (posts_db st)).

(** Every tag attached to a stored post is registered in lower case. *)
Definition tags_registered (st : Store) : Prop :=
  forall k p t, In (k, p) (posts_db st) -> In t (Post.tags p) -> lower t ∈ tags_db st.

(** Every stored post has a title that is not blank. *)
Definition titles_not_blank (st : Store) : Prop :=
  forall k p, In (k, p) (posts_db st) -> ~ blank (Post.title p).

(** Number of times [tag] is attached to a post, over all of [posts]. *)
Definition occurrences (tag : string) (posts : list Post.t) : Z :=
  Z.of_nat (count_occ string_dec (concat (map Post.tags posts)) tag).

(** Sum of the view counters. *)
Fixpoint sum_views (posts : list Post.t) : Z :=
  match posts with
  | [] => 0
  | p :: posts' => Post.views p + sum_views posts'
  end.

(** Descending by the count. *)
Definition by_count_desc (l : list (string * Z)) : Prop :=
  StronglySorted (fun a b => b.2 <= a.2) l.

(** The routes that look a post up through [get_post_or_404] on behalf of
    something other than reading it. *)
Definition looks_up (r : request) (post_id : Z) : Prop :=
  (exists u now, r = UpdatePost post_id u now)
  \/ (exists ct fn uuid now, r = UploadPostImage post_id ct fn uuid now)
  \/ r = DeletePost post_id
  \/ (exists c now, r = CreateComment post_id c now)
  \/ r = GetComments post_id.

(** How serving [r] changes [posts_db] and [tags_db]: one case per kind of
    mutation found in the routes. *)
Inductive posts_step (st : Store) (r : request) (st' : Store) : Prop :=
| posts_same :
    posts_db st' = posts_db st -> tags_db st' = tags_db st ->
    posts_step st r st'
| posts_created post author now :
    r = CreatePost post author now ->
    title_must_not_be_empty (PostCreate.title post) = true ->
    posts_db st'
    = dict_set (post_counter st + 1)
        (Post.mk (post_counter st + 1) author None 0 now now
                 (PostCreate.title post) (PostCreate.content post)
                 (PostCreate.tags post) (PostCreate.published post))
        (posts_db st) ->
    tags_db st'
    = fold_left (fun s tag => s ∪ {[ lower tag ]}) (PostCreate.tags post) (tags_db st) ->
    posts_step st r st'
| posts_viewed k p :
    r = GetPost k ->
    dict_get k (posts_db st) = Some p ->
    posts_db st' = dict_set k (viewed p 1) (posts_db st) ->
    tags_db st' = tags_db st ->
    posts_step st r st'
| posts_updated k u now p :
    r = UpdatePost k u now ->
    dict_get k (posts_db st) = Some p ->
    posts_db st'
    = dict_set k (Post.set_updated_at now (apply_update u p)) (posts_db st) ->
    tags_db st'
    = match PostUpdate.tags u with
      | Some tags => fold_left (fun s tag => s ∪ {[ lower tag ]}) tags (tags_db st)
      | None => tags_db st
      end ->
    posts_step st r st'
| posts_image k ct fn uuid now url p :
    r = UploadPostImage k ct fn uuid now ->
    dict_get k (posts_db st) = Some p ->
    posts_db st'
    = dict_set k (Post.set_updated_at now (Post.set_image_url (Some url) p))
               (posts_db st) ->
    tags_db st' = tags_db st ->
    posts_step st r st'
| posts_deleted k p :
    r = DeletePost k ->
    dict_get k (posts_db st) = Some p ->
    posts_db st' = dict_del k (posts_db st) ->
    tags_db st' = tags_db st ->
    posts_step st r st'.

(** ** Further vocabulary *)

(** The store that serving [r] leaves, one case per route that writes. *)
Inductive store_step (st : Store) (r : request) : Store -> Prop :=
| store_same : store_step st r st
| store_created post author now :
    r = CreatePost post author now ->
    title_must_not_be_empty (PostCreate.title post) = true ->
    (3 <= String.length author)%nat ->
    store_step st r
      (mkStore
         (dict_set (post_counter st + 1)
            (Post.mk (post_counter st + 1) author None 0 now now
                     (PostCreate.title post) (PostCreate.content post)
                     (PostCreate.tags post) (PostCreate.published post))
            (posts_db st))
         (comments_db st)
         (fold_left (fun s tag => s ∪ {[ lower tag ]}) (PostCreate.tags post) (tags_db st))
         (post_counter st + 1) (comment_counter st) (uploads st))
| store_image k ct fn uuid now p :
    r = UploadPostImage k ct fn uuid now ->
    dict_get k (posts_db st) = Some p ->
    startswith "image/" ct = true ->
    store_step st r
      (mkStore
         (dict_set k
            (Post.set_updated_at now
               (Post.set_image_url
                  (Some ("/uploads/" +:+ uuid +:+ "." +:+ last_segment "."%char fn)) p))
            (posts_db st))
         (comments_db st) (tags_db st) (post_counter st) (comment_counter st)
         (if list_in (uuid +:+ "." +:+ last_segment "."%char fn) (uploads st)
          then uploads st
          else (uuid +:+ "." +:+ last_segment "."%char fn) :: uploads st))
| store_viewed k p :
    r = GetPost k ->
    dict_get k (posts_db st) = Some p ->
    store_step st r (set_posts_db (dict_set k (viewed p 1) (posts_db st)) st)
| store_updated k u now p :
    r = UpdatePost k u now ->
    dict_get k (posts_db st) = Some p ->
    store_step st r
      (mkStore
         (dict_set k (Post.set_updated_at now (apply_update u p)) (posts_db st))
         (comments_db st)
         (match PostUpdate.tags u with
          | Some tags => fold_left (fun s tag => s ∪ {[ lower tag ]}) tags (tags_db st)
          | None => tags_db st
          end)
         (post_counter st) (comment_counter st) (uploads st))
| store_deleted k p files :
    r = DeletePost k ->
    dict_get k (posts_db st) = Some p ->
    store_step st r
      (mkStore
         (dict_del k (posts_db st))
         (fold_left (fun d cid => dict_del cid d)
            (dict_keys (List.filter (fun kc => Comment.post_id kc.2 =? k) (comments_db st)))
            (comments_db st))
         (tags_db st) (post_counter st) (comment_counter st) files)
| store_commented k comment now p :
    r = CreateComment k comment now ->
    dict_get k (posts_db st) = Some p ->
    store_step st r
      (mkStore
         (posts_db st)
         (dict_set (comment_counter st + 1)
            (Comment.mk (comment_counter st + 1) k now
                        (CommentCreate.content comment) (CommentCreate.author comment))
            (comments_db st))
         (tags_db st) (post_counter st) (comment_counter st + 1) (uploads st))
| store_uncommented cid :
    r = DeleteComment cid ->
    dict_mem cid (comments_db st) = true ->
    store_step st r (set_comments_db (dict_del cid (comments_db st)) st).

(** Ids in use lie between 1 and the counter that hands them out. *)
Definition ids_bounded (st : Store) : Prop :=
  0 <= post_counter st /\ 0 <= comment_counter st
  /\ (forall k p, In (k, p) (posts_db st) -> 1 <= k <= post_counter st)
  /\ (forall k c, In (k, c) (comments_db st) -> 1 <= k <= comment_counter st).

(** The routes that only read. *)
Definition read_only (r : request) : bool :=
  match r with
  | Root | GetPosts _ _ _ _ _ | GetComments _ | GetTags | GetPostsByTag _ | GetStats => true
  | _ => false
  end.

(** The character [sep] does not occur in [s]. *)
Definition lacks (sep : ascii) (s : string) : Prop :=
  ~ In sep (list_ascii_of_string s).

(** Ascending in the order of [sorted]. *)
Definition ascending (l : list string) : Prop :=
  StronglySorted (fun a b => String.leb a b = true) l.

(** ** Sample stores *)

Definition hello : PostCreate.t := PostCreate.mk "Hello" "World" ["Go"; "go"] false.

(** One post, [hello] by alice, created at time 10. *)
Definition store1 : Store := run empty_store [CreatePost hello "alice" 10].

(** [store1] after [PUT /posts/1] with a whitespace title at time 20. *)
Definition blank_title_update : PostUpdate.t :=
  PostUpdate.mk (Some "   ") None None None.

Definition store1_blank : Store := run store1 [UpdatePost 1 blank_title_update 20].

(** A post without tags. *)
Definition untagged : PostCreate.t := PostCreate.mk "Plain" "No tags here" [] true.

Definition store_untagged : Store := run empty_store [CreatePost untagged "carol" 5].

(** Two posts and three comments, two of them on the first post. *)
Definition note (text : string) : CommentCreate.t := CommentCreate.mk text "bob".

Definition store2 : Store :=
  run empty_store
    [CreatePost hello "alice" 10;
     CreatePost untagged "carol" 11;
     CreateComment 1 (note "first") 12;
     CreateComment 2 (note "second") 13;
     CreateComment 1 (note "third") 14].

(** Twelve posts created one after the other at times 1..12. *)
Definition store12 : Store :=
  run empty_store (map (fun n => CreatePost hello "alice" (Z.of_nat n)) (seq 1 12)).

(** * Properties *)

(** ** Lists, slices and sorting *)

Section ListFacts.
Context {A : Type}.
Implicit Types (l : list A) (prec : A -> A -> bool).

Lemma slice_take_drop l start stop :
  0 <= start <= stop ->
  slice l start stop = take (Z.to_nat (stop - start)) (drop (Z.to_nat start) l).
Proof.
  intros Hb. unfold slice, slice_bound.
  destruct (Z.ltb_spec start 0) as [?|_]; [lia|].
  destruct (Z.ltb_spec stop 0) as [?|_]; [lia|].
  set (len := Z.of_nat (length l)).
  destruct (Z.le_gt_cases len start) as [Hge|Hlt].
  - rewrite (Z.min_r start len), (Z.min_r stop len) by lia.
    rewrite Z.sub_diag. simpl.
    rewrite (drop_ge l (Z.to_nat start)) by (subst len; lia).
    by rewrite take_nil.
  - rewrite (Z.min_l start len) by lia.
    destruct (Z.le_gt_cases stop len) as [Hs|Hs].
    + by rewrite (Z.min_l stop len) by lia.
    + rewrite (Z.min_r stop len) by lia.
      rewrite !take_ge; [done| |]; rewrite length_drop; subst len; lia.
Qed.

(** Cutting a list into consecutive chunks of [S] elements and gluing
    them back gives the list. *)
Lemma concat_chunks (sz n : nat) l :
  (length l <= n * sz)%nat ->
  concat (map (fun p => take sz (drop ((p - 1) * sz) l)) (seq 1 n)) = l.
Proof.
  revert l. induction n as [|n IH]; intros l Hlen.
  - simpl in *. destruct l; [done | simpl in Hlen; lia].
  - cbn [seq map concat]. rewrite <- seq_shift, map_map.
    replace ((1 - 1) * sz)%nat with 0%nat by lia. rewrite drop_0.
    rewrite <- (take_drop sz l) at 2. f_equal.
    rewrite <- (IH (drop sz l)) by (rewrite length_drop; lia).
    f_equal. apply map_ext_in. intros p Hp%in_seq.
    rewrite drop_drop. do 2 f_equal.
    destruct p as [|q]; [lia|]. simpl. rewrite Nat.sub_0_r. lia.
Qed.

Lemma insert_by_perm prec x l : insert_by prec x l ≡ₚ x :: l.
Proof.
  induction l as [|y l IH]; simpl; [done|].
  destruct (prec y x); [|done].
  rewrite IH. apply perm_swap.
Qed.

Lemma sort_by_perm prec l : sort_by prec l ≡ₚ l.
Proof.
  induction l as [|x l IH]; simpl; [done|].
  unfold sort_by in *. simpl. by rewrite insert_by_perm, IH.
Qed.

Lemma sort_by_length prec l : length (sort_by prec l) = length l.
Proof. apply Permutation_length, sort_by_perm. Qed.

Lemma sort_by_In prec l x : In x (sort_by prec l) <-> In x l.
Proof.
  split; apply Permutation_in; [|symmetry]; apply sort_by_perm.
Qed.

(** Stability: elements that share a key keep their relative order. *)
Lemma insert_by_key_filter (key : A -> Z) k x l :
  List.filter (fun a => key a =? k) (insert_by (fun y x => key x <? key y) x l)
  = List.filter (fun a => key a =? k) (x :: l).
Proof.
  induction l as [|y l IH]; [done|].
  cbn [insert_by]. destruct (Z.ltb_spec (key x) (key y)) as [Hlt|Hge]; [|done].
  cbn [List.filter] in *. rewrite IH.
  destruct (Z.eqb_spec (key y) k), (Z.eqb_spec (key x) k); try done; lia.
Qed.

Lemma sort_desc_stable (key : A -> Z) k l :
  List.filter (fun a => key a =? k) (sort_desc key l)
  = List.filter (fun a => key a =? k) l.
Proof.
  induction l as [|x l IH]; [done|].
  unfold sort_desc, sort_by in *. cbn [foldr].
  rewrite insert_by_key_filter. cbn [List.filter]. by rewrite IH.
Qed.

Lemma insert_by_desc_sorted (key : A -> Z) x l :
  StronglySorted (fun a b => key b <= key a) l ->
  StronglySorted (fun a b => key b <= key a)
                 (insert_by (fun y x => key x <? key y) x l).
Proof.
  induction 1 as [|y l Hs IH Hy]; simpl.
  - repeat constructor.
  - destruct (Z.ltb_spec (key x) (key y)) as [Hlt|Hge].
    + constructor; [done|].
      rewrite List.Forall_forall in *. intros z Hz.
      apply (Permutation_in _ (insert_by_perm _ x l)) in Hz.
      destruct Hz as [<-|Hz]; [lia | by apply Hy].
    + constructor; [by constructor|].
      constructor; [done|].
      rewrite List.Forall_forall in *. intros z Hz. specialize (Hy z Hz). lia.
Qed.

Lemma sort_desc_sorted (key : A -> Z) l :
  StronglySorted (fun a b => key b <= key a) (sort_desc key l).
Proof.
  induction l as [|x l IH]; [constructor|].
  unfold sort_desc, sort_by in *. simpl. by apply insert_by_desc_sorted.
Qed.
End ListFacts.

(** ** Dictionaries *)

Section DictFacts.
Context {K V : Type} `{EqDecision K}.
Implicit Types (d : list (K * V)) (k : K) (v : V).

Lemma dict_get_set_eq k v d : dict_get k (dict_set k v d) = Some v.
Proof.
  induction d as [|[k' v'] d IH]; simpl.
  - by rewrite decide_True.
  - destruct (decide (k = k')) as [->|Hne]; simpl.
    + by rewrite decide_True.
    + by rewrite decide_False.
Qed.

Lemma dict_get_set_ne k k' v d :
  k <> k' -> dict_get k' (dict_set k v d) = dict_get k' d.
Proof.
  intros Hne. induction d as [|[k0 v0] d IH]; simpl.
  - by rewrite decide_False.
  - destruct (decide (k = k0)) as [->|Hk]; simpl.
    + by rewrite !decide_False.
    + by rewrite IH.
Qed.

Lemma dict_set_same k v d : dict_get k d = Some v -> dict_set k v d = d.
Proof.
  induction d as [|[k0 v0] d IH]; simpl; [done|].
  destruct (decide (k = k0)) as [->|Hk]; [congruence|].
  intros Hg. by rewrite IH.
Qed.

Lemma dict_set_set k v v' d : dict_set k v (dict_set k v' d) = dict_set k v d.
Proof.
  induction d as [|[k0 v0] d IH]; simpl.
  - by rewrite decide_True.
  - destruct (decide (k = k0)) as [->|Hk]; simpl.
    + by rewrite decide_True.
    + by rewrite decide_False, IH.
Qed.

Lemma dict_get_In k v d : dict_get k d = Some v -> In (k, v) d.
Proof.
  induction d as [|[k0 v0] d IH]; simpl; [done|].
  destruct (decide (k = k0)) as [->|Hk]; [intros [= ->]; by left | auto].
Qed.

Lemma dict_get_None k d : dict_get k d = None <-> ~ In k (dict_keys d).
Proof.
  induction d as [|[k0 v0] d IH]; simpl; [split; [tauto | done]|].
  destruct (decide (k = k0)) as [->|Hk].
  - split; [done | intros Hn; exfalso; apply Hn; by left].
  - rewrite IH. split; [intros ? [?|?]; congruence | tauto].
Qed.

Lemma dict_wf_get k v d : dict_wf d -> In (k, v) d -> dict_get k d = Some v.
Proof.
  unfold dict_wf. induction d as [|[k0 v0] d IH]; simpl; [done|].
  intros Hnd [Heq|Hin]; apply NoDup_cons in Hnd as [Hnot Hnd].
  - inversion Heq; subst. by rewrite decide_True.
  - destruct (decide (k = k0)) as [->|Hk]; [|auto].
    exfalso. apply Hnot. apply list_elem_of_In.
    change k0 with (k0, v).1. by apply in_map.
Qed.

Lemma dict_In_set k v kv d :
  In kv (dict_set k v d) -> kv = (k, v) \/ In kv d.
Proof.
  induction d as [|[k0 v0] d IH]; simpl.
  - intros [<-|[]]. by left.
  - destruct (decide (k = k0)) as [->|Hk]; simpl.
    + intros [<-|?]; auto.
    + intros [?|?]; [auto | destruct IH; auto].
Qed.

Lemma dict_keys_set k v d :
  dict_keys (dict_set k v d)
  = if dict_mem k d then dict_keys d else dict_keys d ++ [k].
Proof.
  unfold dict_mem. induction d as [|[k0 v0] d IH]; simpl; [done|].
  destruct (decide (k = k0)) as [->|Hk]; simpl; [done|].
  rewrite IH. by destruct (dict_get k d).
Qed.

Lemma dict_wf_set k v d : dict_wf d -> dict_wf (dict_set k v d).
Proof.
  unfold dict_wf. rewrite dict_keys_set. unfold dict_mem.
  destruct (dict_get k d) eqn:Hg; [done|].
  intros Hnd. apply NoDup_app. split_and!; [done| |apply NoDup_singleton].
  intros x Hx ->%list_elem_of_singleton.
  apply dict_get_None in Hg. by apply Hg, list_elem_of_In.
Qed.

Lemma dict_In_del k kv d : In kv (dict_del k d) <-> In kv d /\ kv.1 <> k.
Proof.
  unfold dict_del. rewrite filter_In, negb_true_iff, bool_decide_eq_false.
  tauto.
Qed.

Lemma dict_get_del_eq k d : dict_get k (dict_del k d) = None.
Proof.
  apply dict_get_None. intros (kv & Hk & Hin)%in_map_iff.
  apply dict_In_del in Hin as [_ Hne]. congruence.
Qed.

Lemma dict_get_del_ne k k' d :
  k <> k' -> dict_get k' (dict_del k d) = dict_get k' d.
Proof.
  intros Hne. unfold dict_del.
  induction d as [|[k0 v0] d IH]; simpl; [done|].
  case_bool_decide as Hk; simpl in *.
  - subst k0. by rewrite decide_False.
  - by rewrite IH.
Qed.

Lemma dict_wf_del k d : dict_wf d -> dict_wf (dict_del k d).
Proof.
  unfold dict_wf, dict_del, dict_keys.
  induction d as [|[k0 v0] d IH]; simpl; [done|].
  intros [Hnot Hnd]%NoDup_cons.
  case_bool_decide; simpl; [auto|].
  apply NoDup_cons. split; [|auto].
  rewrite list_elem_of_In, in_map_iff in *.
  intros (kv & Hkv & Hin). apply Hnot. exists kv.
  apply filter_In in Hin. tauto.
Qed.

Lemma dict_del_fold_wf (ks : list K) d :
  dict_wf d -> dict_wf (fold_left (fun d k => dict_del k d) ks d).
Proof.
  revert d. induction ks as [|k ks IH]; simpl; [done|].
  intros d Hd. by apply IH, dict_wf_del.
Qed.

Lemma dict_In_del_fold (ks : list K) kv d :
  In kv (fold_left (fun d k => dict_del k d) ks d) <-> In kv d /\ ~ In kv.1 ks.
Proof.
  revert d. induction ks as [|k ks IH]; intros d; simpl; [tauto|].
  rewrite IH, dict_In_del. intuition congruence.
Qed.

Lemma dict_get_del_fold_in (ks : list K) k d :
  In k ks -> dict_get k (fold_left (fun d k => dict_del k d) ks d) = None.
Proof.
  intros Hin. apply dict_get_None. intros (kv & Hk & Hkv)%in_map_iff.
  apply dict_In_del_fold in Hkv as [_ Hn]. apply Hn. by rewrite Hk.
Qed.

Lemma dict_get_del_fold_notin (ks : list K) k d :
  ~ In k ks -> dict_get k (fold_left (fun d k => dict_del k d) ks d) = dict_get k d.
Proof.
  revert d. induction ks as [|k0 ks IH]; intros d Hn; simpl in *; [done|].
  rewrite IH by tauto. apply dict_get_del_ne. tauto.
Qed.
End DictFacts.

Lemma dict_update_get_eq {V} k (f : V -> V) d v :
  dict_get k d = Some v -> dict_get k (dict_update k f d) = Some (f v).
Proof. intros Hg. unfold dict_update. rewrite Hg. apply dict_get_set_eq. Qed.

Lemma dict_update_set {V} k (f : V -> V) d v :
  dict_get k d = Some v -> dict_update k f d = dict_set k (f v) d.
Proof. intros Hg. unfold dict_update. by rewrite Hg. Qed.

Lemma dict_update_wf {V} k (f : V -> V) d : dict_wf d -> dict_wf (dict_update k f d).
Proof.
  unfold dict_update. destruct (dict_get k d); [apply dict_wf_set | done].
Qed.

Create HintDb dict discriminated.
#[global] Hint Resolve dict_wf_set dict_wf_del dict_del_fold_wf dict_update_wf : dict.

Lemma dict_values_NoDup (d : list (Z * Post.t)) :
  dict_wf d -> (forall k p, In (k, p) d -> Post.id p = k) -> NoDup (dict_values d).
Proof.
  intros Hwf Hid.
  assert (map Post.id (dict_values d) = dict_keys d) as Hk.
  { unfold dict_values, dict_keys. rewrite map_map. apply map_ext_in.
    intros [k p] Hin. by apply Hid. }
  unfold dict_wf in Hwf. rewrite <- Hk in Hwf.
  by apply (NoDup_fmap_1 Post.id).
Qed.

Lemma NoDup_list_filter {A} (f : A -> bool) (l : list A) : NoDup l -> NoDup (List.filter f l).
Proof. rewrite !NoDup_ListNoDup. apply List.NoDup_filter. Qed.

(** ** The monad on the routes *)

Lemma for_each_Post_model l st :
  for_each Post_model l st
  = (if forallb (fun p => title_must_not_be_empty (Post.title p)) l
     then Ok l else Err InternalError, st).
Proof.
  induction l as [|p l IH]; [done|].
  cbn [for_each forallb]. unfold bind at 1. unfold Post_model at 1.
  destruct (title_must_not_be_empty (Post.title p)); [|done].
  unfold ret at 1. cbn [andb]. unfold bind at 1. rewrite IH.
  by destruct (forallb _ l).
Qed.

Lemma Forall_Post_valid l :
  Forall Post_valid l
  <-> forallb (fun p => title_must_not_be_empty (Post.title p)) l = true.
Proof.
  rewrite forallb_forall, List.Forall_forall. reflexivity.
Qed.

(** ** Pagination *)

Lemma calculate_pagination_ceil total page page_size :
  1 <= page_size ->
  let n := calculate_pagination total page page_size in
  total <= n * page_size < total + page_size.
Proof.
  intros Hs. unfold calculate_pagination. cbv zeta.
  pose proof (Z.div_mod (total + page_size - 1) page_size ltac:(lia)) as Hdm.
  pose proof (Z.mod_pos_bound (total + page_size - 1) page_size ltac:(lia)) as Hb.
  nia.
Qed.

Lemma paginated_posts_window (l : list Post.t) page page_size :
  1 <= page -> 1 <= page_size ->
  paginated_posts l page page_size
  = take (Z.to_nat page_size) (drop (Z.to_nat ((page - 1) * page_size)) l).
Proof.
  intros Hp Hs. unfold paginated_posts. rewrite slice_take_drop by nia.
  do 2 f_equal. lia.
Qed.

Lemma get_posts_eval st page page_size tag published search :
  1 <= page -> 1 <= page_size <= 100 ->
  let sorted := filtered_sorted st tag published search in
  let window := paginated_posts sorted page page_size in
  get_posts page page_size tag published search st
  = (if forallb (fun p => title_must_not_be_empty (Post.title p)) window
     then Ok (PaginatedPosts.mk window (Z.of_nat (length sorted)) page page_size
                (calculate_pagination (Z.of_nat (length sorted)) page page_size))
     else Err InternalError, st).
Proof.
  intros Hp Hs. cbv zeta. unfold get_posts.
  destruct (Z.ltb_spec page 1); [lia|].
  destruct (Z.ltb_spec page_size 1); [lia|].
  destruct (Z.ltb_spec 100 page_size); [lia|].
  cbn [orb]. unfold bind, gets. rewrite for_each_Post_model.
  by destruct (forallb _ _).
Qed.

(** The pages of a list cover it and nothing else. *)
Lemma in_some_page (l : list Post.t) page_size p :
  1 <= page_size ->
  In p l <-> exists page, 1 <= page /\ In p (paginated_posts l page page_size).
Proof.
  intros Hs. split.
  - intros Hin.
    rewrite <- (concat_chunks (Z.to_nat page_size) (length l) l) in Hin by nia.
    apply in_concat in Hin as (chunk & Hchunk & Hp).
    apply in_map_iff in Hchunk as (k & <- & Hk%in_seq).
    exists (Z.of_nat k). split; [lia|].
    rewrite paginated_posts_window by lia.
    replace (Z.to_nat ((Z.of_nat k - 1) * page_size))
      with ((k - 1) * Z.to_nat page_size)%nat by nia.
    done.
  - intros (page & Hpage & Hin). rewrite paginated_posts_window in Hin by lia.
    rewrite <- (firstn_skipn (Z.to_nat ((page - 1) * page_size)) l).
    apply in_or_app. right.
    rewrite <- (firstn_skipn (Z.to_nat page_size) (drop _ l)).
    apply in_or_app. by left.
Qed.


(** ** Title validation (C3) *)

Lemma blank_nil : blank EmptyString.
Proof. constructor. Qed.

Lemma blank_cons c s : blank (String c s) <-> isspace c = true /\ blank s.
Proof. unfold blank. simpl. apply List.Forall_cons_iff. Qed.

Lemma lstrip_blank s : blank s -> lstrip s = EmptyString.
Proof.
  induction s as [|c s IH]; [done|].
  intros [Hc Hs]%blank_cons. simpl. rewrite Hc. auto.
Qed.

Lemma rstrip_empty s : rstrip s = EmptyString <-> blank s.
Proof.
  induction s as [|c s IH]; [split; [intros; apply blank_nil | done]|].
  rewrite blank_cons. simpl.
  destruct (rstrip s) eqn:Hr.
  - destruct (isspace c); [|split; [done | intros [? _]; done]].
    split; [intros _; split; [done | by apply IH] | done].
  - split; [done|]. intros [_ Hs]. by apply IH in Hs.
Qed.

Lemma lstrip_blank_inv s : blank (lstrip s) -> blank s.
Proof.
  induction s as [|c s IH]; [done|].
  simpl. destruct (isspace c) eqn:Hc; [|done].
  intros Hb. apply blank_cons. auto.
Qed.

Lemma strip_empty s : strip s = EmptyString <-> blank s.
Proof.
  unfold strip. rewrite rstrip_empty. split; [apply lstrip_blank_inv|].
  intros Hb. rewrite lstrip_blank by done. apply blank_nil.
Qed.

Lemma title_rejected_iff v : title_must_not_be_empty v = false <-> blank v.
Proof.
  unfold title_must_not_be_empty. rewrite <- strip_empty.
  destruct (strip v); simpl; split; done.
Qed.

Lemma Post_valid_iff p : Post_valid p <-> ~ blank (Post.title p).
Proof.
  unfold Post_valid. rewrite <- title_rejected_iff.
  destruct (title_must_not_be_empty _); split; done.
Qed.


(** ** Reading a post *)

Lemma get_post_or_404_eval post_id st :
  get_post_or_404 post_id st
  = (match dict_get post_id (posts_db st) with
     | Some p => Ok p
     | None => Err NotFoundError
     end, st).
Proof.
  unfold get_post_or_404, bind, gets. by destruct (dict_get _ _).
Qed.

(** A route that begins with [get_post_or_404] on an id that is not stored
    stops there. *)
Ltac missing_post route Hg :=
  unfold route, bind; rewrite get_post_or_404_eval, Hg; reflexivity.

Lemma get_post_missing post_id st :
  dict_get post_id (posts_db st) = None -> get_post post_id st = (Err NotFoundError, st).
Proof. intros Hg. missing_post get_post Hg. Qed.

Lemma update_post_missing post_id u now st :
  dict_get post_id (posts_db st) = None ->
  update_post post_id u now st = (Err NotFoundError, st).
Proof. intros Hg. missing_post update_post Hg. Qed.

Lemma upload_post_image_missing post_id ct fn uuid now st :
  dict_get post_id (posts_db st) = None ->
  upload_post_image post_id ct fn uuid now st = (Err NotFoundError, st).
Proof. intros Hg. missing_post upload_post_image Hg. Qed.

Lemma delete_post_missing post_id st :
  dict_get post_id (posts_db st) = None ->
  delete_post post_id st = (Err NotFoundError, st).
Proof. intros Hg. missing_post delete_post Hg. Qed.

Lemma get_comments_missing post_id st :
  dict_get post_id (posts_db st) = None ->
  get_comments post_id st = (Err NotFoundError, st).
Proof. intros Hg. missing_post get_comments Hg. Qed.

Lemma get_post_eval post_id st p :
  dict_get post_id (posts_db st) = Some p ->
  get_post post_id st
  = (if title_must_not_be_empty (Post.title p) then Ok (viewed p 1) else Err InternalError,
     set_posts_db (dict_set post_id (viewed p 1) (posts_db st)) st).
Proof.
  intros Hg. unfold get_post, bind at 1. rewrite get_post_or_404_eval, Hg.
  unfold bind at 1. unfold increment_views, bind at 1, gets at 1, dict_mem.
  rewrite Hg. unfold mutate_post, modify.
  unfold bind, load_post, bind, gets. cbn [posts_db set_posts_db].
  rewrite (dict_update_get_eq _ _ _ _ Hg), (dict_update_set _ _ _ _ Hg).
  unfold Post_model, viewed, ret, raise. cbn [Post.title Post.set_views].
  by destruct (title_must_not_be_empty _).
Qed.

Lemma viewed_viewed p n m : viewed (viewed p n) m = viewed p (n + m).
Proof. unfold viewed, Post.set_views. simpl. f_equal. lia. Qed.

Lemma viewed_0 p : viewed p 0 = p.
Proof. destruct p. unfold viewed, Post.set_views. simpl. f_equal. lia. Qed.

Lemma set_posts_db_twice d d' st : set_posts_db d (set_posts_db d' st) = set_posts_db d st.
Proof. done. Qed.

Lemma run_get_post st post_id p (n : nat) :
  dict_get post_id (posts_db st) = Some p ->
  run st (repeat (GetPost post_id) n)
  = set_posts_db (dict_set post_id (viewed p (Z.of_nat n)) (posts_db st)) st.
Proof.
  revert st p. induction n as [|n IH]; intros st p Hg.
  - simpl. rewrite viewed_0, dict_set_same by done. by destruct st.
  - cbn [repeat run fold_left]. unfold step at 2. cbn [handle].
    unfold fmap_M, bind. rewrite (get_post_eval _ _ _ Hg).
    set (st1 := set_posts_db _ st).
    assert (dict_get post_id (posts_db st1) = Some (viewed p 1)) as Hg1.
    { subst st1. cbn [posts_db set_posts_db]. apply dict_get_set_eq. }
    assert (run st1 (repeat (GetPost post_id) n)
            = set_posts_db (dict_set post_id (viewed p (Z.of_nat (S n))) (posts_db st)) st) as <-.
    { rewrite (IH st1 _ Hg1). subst st1. cbn [posts_db set_posts_db].
      rewrite set_posts_db_twice, dict_set_set, viewed_viewed.
      do 3 f_equal. lia. }
    unfold run. by destruct (title_must_not_be_empty _).
Qed.


(** ** Filters (C4) *)

Lemma append_cons c s t : String c s +:+ t = String c (s +:+ t).
Proof. reflexivity. Qed.

Lemma append_nil_l s : EmptyString +:+ s = s.
Proof. reflexivity. Qed.

Lemma startswith_spec p s : startswith p s = true <-> exists post, s = p +:+ post.
Proof.
  revert s. induction p as [|a p IH]; intros s.
  - split; [intros _; by exists s | by destruct s].
  - destruct s as [|b s]; simpl.
    + split; [done | intros [post Hp]; by rewrite append_cons in Hp].
    + destruct (Ascii.eqb_spec a b) as [->|Hne].
      * rewrite IH. split; intros [post Hp]; exists post.
        -- by rewrite append_cons, Hp.
        -- rewrite append_cons in Hp. by inversion Hp.
      * split; [done|]. intros [post Hp]. rewrite append_cons in Hp.
        inversion Hp. congruence.
Qed.

Lemma str_in_spec needle hay : str_in needle hay = true <-> occurs needle hay.
Proof.
  unfold occurs. split.
  - induction hay as [|c hay IH]; simpl; rewrite orb_true_iff.
    + intros [Hs|?]; [|done]. apply startswith_spec in Hs as [post Hp].
      by exists EmptyString, post.
    + intros [Hs|Hr].
      * apply startswith_spec in Hs as [post Hp]. by exists EmptyString, post.
      * destruct (IH Hr) as (pre & post & ->). by exists (String c pre), post.
  - intros (pre & post & ->). induction pre as [|c pre IH].
    + rewrite append_nil_l.
      assert (startswith needle (needle +:+ post) = true) as Hs
        by (apply startswith_spec; eauto).
      destruct (needle +:+ post); simpl in *; by rewrite Hs.
    + rewrite append_cons. cbn [str_in]. rewrite IH. apply orb_true_r.
Qed.

Lemma list_in_spec x l : list_in x l = true <-> In x l.
Proof.
  unfold list_in. rewrite existsb_exists. split.
  - intros (y & Hy & ->%String.eqb_eq). done.
  - intros Hx. exists x. by rewrite String.eqb_refl.
Qed.

Lemma has_tag_spec tag p : has_tag tag p = true <-> tag_matches tag p.
Proof.
  unfold has_tag, tag_matches. rewrite list_in_spec, in_map_iff.
  split; intros (x & ? & ?); exists x; auto.
Qed.

Lemma matches_search_spec s p :
  matches_search (lower s) p = true
  <-> occurs (lower s) (lower (Post.title p)) \/ occurs (lower s) (lower (Post.content p)).
Proof. unfold matches_search. by rewrite orb_true_iff, !str_in_spec. Qed.

Lemma occurs_empty hay : occurs EmptyString hay.
Proof. by exists EmptyString, hay. Qed.

Lemma str_truthy_spec s : str_truthy s = true <-> s <> EmptyString.
Proof. destruct s; simpl; split; done. Qed.

Lemma In_optional_filter {X} (o : option X) (f : X -> Post.t -> bool)
    (P : X -> Post.t -> Prop) (l : list Post.t) p :
  (forall x, f x p = true <-> P x p) ->
  In p (match o with Some x => List.filter (f x) l | None => l end)
  <-> In p l /\ (forall x, o = Some x -> P x p).
Proof.
  intros Hf. destruct o as [x|].
  - rewrite filter_In, Hf. split.
    + intros [Hin Hp]. split; [done|]. by intros ? [= <-].
    + intros [Hin Hp]. auto.
  - split; [intros Hin; split; [done | intros ? [=]] | by intros [? _]].
Qed.

Lemma In_truthy_filter (o : option string) (f : string -> Post.t -> bool)
    (P : string -> Post.t -> Prop) (l : list Post.t) p :
  (forall x, f x p = true <-> P x p) ->
  In p (match o with
        | Some x => if str_truthy x then List.filter (f x) l else l
        | None => l
        end)
  <-> In p l /\ (forall x, o = Some x -> x <> EmptyString -> P x p).
Proof.
  intros Hf. destruct o as [x|].
  - destruct (str_truthy x) eqn:Hx.
    + rewrite filter_In, Hf. apply str_truthy_spec in Hx. split.
      * intros [Hin Hp]. split; [done|]. by intros ? [= <-].
      * intros [Hin Hp]. auto.
    + assert (x = EmptyString) as -> by (by destruct x).
      split; [intros Hin; split; [done | by intros ? [= <-]] | by intros [? _]].
  - split; [intros Hin; split; [done | intros ? [=]] | by intros [? _]].
Qed.

Lemma filter_posts_spec all tag published search p :
  In p (filter_posts tag published search all)
  <-> In p all /\ passes_filters tag published search p.
Proof.
  unfold filter_posts, passes_filters.
  rewrite (In_truthy_filter search (fun s => matches_search (lower s))
             (fun s q => occurs (lower s) (lower (Post.title q))
                         \/ occurs (lower s) (lower (Post.content q))))
    by (intros; apply matches_search_spec).
  rewrite (In_optional_filter published (fun b q => Bool.eqb (Post.published q) b)
             (fun b q => Post.published q = b))
    by (intros; apply Bool.eqb_true_iff).
  rewrite (In_truthy_filter tag has_tag tag_matches) by (intros; apply has_tag_spec).
  split.
  - intros [[[Hin Ht] Hp] Hs]. split_and!; try done.
    intros s Hsome. destruct (decide (s = EmptyString)) as [->|Hne]; [|auto].
    left. apply occurs_empty.
  - intros (Hin & Ht & Hp & Hs). split_and!; auto.
Qed.


(** ** Deleting a post (C5) *)

Lemma delete_post_eval post_id st p :
  dict_get post_id (posts_db st) = Some p ->
  exists files,
    delete_post post_id st
    = (Ok tt,
       mkStore (dict_del post_id (posts_db st))
               (fold_left (fun d cid => dict_del cid d)
                  (dict_keys (List.filter (fun kc => Comment.post_id kc.2 =? post_id)
                                          (comments_db st)))
                  (comments_db st))
               (tags_db st) (post_counter st) (comment_counter st) files).
Proof.
  intros Hg. unfold delete_post, bind at 1. rewrite get_post_or_404_eval, Hg.
  destruct (Post.image_url p) as [url|]; [destruct (str_truthy url)|];
    unfold bind, gets, modify, ret; cbn;
    try destruct (list_in _ _); eexists; reflexivity.
Qed.

Lemma delete_comment_missing cid st :
  dict_get cid (comments_db st) = None ->
  delete_comment cid st = (Err NotFoundError, st).
Proof.
  intros Hg. unfold delete_comment, bind, gets, dict_mem. by rewrite Hg.
Qed.

Lemma cascade_keys post_id (cs : list (Z * Comment.t)) cid :
  In cid (dict_keys (List.filter (fun kc => Comment.post_id kc.2 =? post_id) cs))
  <-> exists c, In (cid, c) cs /\ Comment.post_id c = post_id.
Proof.
  unfold dict_keys. rewrite in_map_iff. split.
  - intros ([k c] & <- & [Hin Heq%Z.eqb_eq]%filter_In). by exists c.
  - intros (c & Hin & Heq). exists (cid, c). split; [done|].
    apply filter_In. split; [done|]. by apply Z.eqb_eq.
Qed.


(** ** What the mutating routes do to the store *)

Lemma elem_of_registered x (tags : list string) (s : gset string) :
  x ∈ fold_left (fun s tag => s ∪ {[ lower tag ]}) tags s
  <-> x ∈ s \/ exists t, In t tags /\ x = lower t.
Proof.
  revert s. induction tags as [|t tags IH]; intros s; simpl.
  - split; [auto | intros [?|(? & Hin & _)]; [done | destruct Hin]].
  - rewrite IH, elem_of_union, elem_of_singleton. split.
    + intros [[?|Heq]|(t' & ? & Heq)]; subst; eauto.
    + intros [?|(t' & [Heq|?] & Hx)]; subst; eauto.
Qed.

Lemma create_post_eval post author now st :
  create_post post author now st
  = if negb (title_must_not_be_empty (PostCreate.title post))
       || (String.length author <? 3)%nat
    then (Err ValidationError, st)
    else
      let n := post_counter st + 1 in
      let post_data :=
        Post.mk n author None 0 now now (PostCreate.title post)
                (PostCreate.content post) (PostCreate.tags post)
                (PostCreate.published post) in
      (Ok post_data,
       mkStore (dict_set n post_data (posts_db st)) (comments_db st)
               (fold_left (fun s tag => s ∪ {[ lower tag ]}) (PostCreate.tags post)
                          (tags_db st))
               n (comment_counter st) (uploads st)).
Proof.
  unfold create_post.
  destruct (title_must_not_be_empty (PostCreate.title post)) eqn:Ht; [|done].
  cbn [negb orb]. destruct (String.length author <? 3)%nat; [done|].
  unfold bind, modify, register_tags, gets, Post_model, ret. cbn. by rewrite Ht.
Qed.

Lemma update_post_eval post_id u now st p :
  dict_get post_id (posts_db st) = Some p ->
  let p' := Post.set_updated_at now (apply_update u p) in
  update_post post_id u now st
  = (if title_must_not_be_empty (Post.title p') then Ok p' else Err InternalError,
     mkStore (dict_set post_id p' (posts_db st)) (comments_db st)
             (match PostUpdate.tags u with
              | Some tags => fold_left (fun s tag => s ∪ {[ lower tag ]}) tags (tags_db st)
              | None => tags_db st
              end)
             (post_counter st) (comment_counter st) (uploads st)).
Proof.
  intros Hg p'. unfold update_post, bind at 1. rewrite get_post_or_404_eval, Hg.
  assert (dict_update post_id (Post.set_updated_at now)
            (dict_update post_id (apply_update u) (posts_db st))
          = dict_set post_id p' (posts_db st)) as Hd.
  { rewrite (dict_update_set _ _ _ _ (dict_update_get_eq _ _ _ _ Hg)).
    by rewrite (dict_update_set _ _ _ _ Hg), dict_set_set. }
  destruct (PostUpdate.tags u) as [tags|];
    unfold register_tags, mutate_post, load_post, Post_model;
    unfold bind, modify, gets, ret, raise;
    cbn [posts_db set_posts_db set_tags_db comments_db tags_db post_counter
         comment_counter uploads];
    rewrite Hd, dict_get_set_eq; fold p';
    by destruct (title_must_not_be_empty (Post.title p')).
Qed.

Lemma upload_post_image_eval post_id ct fn uuid now st p :
  dict_get post_id (posts_db st) = Some p ->
  let unique_filename := uuid +:+ "." +:+ last_segment "."%char fn in
  let url := "/uploads/" +:+ unique_filename in
  upload_post_image post_id ct fn uuid now st
  = if startswith "image/" ct
    then (Ok url,
          mkStore (dict_set post_id
                     (Post.set_updated_at now (Post.set_image_url (Some url) p))
                     (posts_db st))
                  (comments_db st) (tags_db st) (post_counter st) (comment_counter st)
                  (if list_in unique_filename (uploads st) then uploads st
                   else unique_filename :: uploads st))
    else (Err InvalidMediaError, st).
Proof.
  intros Hg unique_filename url.
  unfold upload_post_image, bind at 1. rewrite get_post_or_404_eval, Hg.
  destruct (startswith "image/" ct); [|done].
  cbn [negb]. fold unique_filename. fold url.
  unfold mutate_post. unfold bind, modify, ret.
  assert (
    dict_update post_id (Post.set_updated_at now)
      (dict_update post_id (Post.set_image_url (Some url)) (posts_db st))
    = dict_set post_id (Post.set_updated_at now (Post.set_image_url (Some url) p))
               (posts_db st)) as Hd.
  { rewrite (dict_update_set _ _ _ _ (dict_update_get_eq _ _ _ _ Hg)).
    by rewrite (dict_update_set _ _ _ _ Hg), dict_set_set. }
  destruct (list_in unique_filename (uploads st));
    cbn [posts_db set_posts_db set_uploads comments_db tags_db post_counter
         comment_counter uploads]; by rewrite Hd.
Qed.

Lemma create_comment_eval post_id comment now st :
  create_comment post_id comment now st
  = match dict_get post_id (posts_db st) with
    | None => (Err NotFoundError, st)
    | Some _ =>
        let n := comment_counter st + 1 in
        let comment_data :=
          Comment.mk n post_id now (CommentCreate.content comment)
                     (CommentCreate.author comment) in
        (Ok comment_data,
         mkStore (posts_db st) (dict_set n comment_data (comments_db st)) (tags_db st)
                 (post_counter st) n (uploads st))
    end.
Proof.
  unfold create_comment, bind at 1. rewrite get_post_or_404_eval.
  by destruct (dict_get post_id (posts_db st)).
Qed.

Lemma delete_comment_eval cid st :
  delete_comment cid st
  = if dict_mem cid (comments_db st)
    then (Ok tt, set_comments_db (dict_del cid (comments_db st)) st)
    else (Err NotFoundError, st).
Proof.
  unfold delete_comment, bind, gets. by destruct (dict_mem _ _).
Qed.

(** The read-only routes leave the store alone, whatever they return. *)
Lemma get_posts_store page page_size tag published search st :
  (get_posts page page_size tag published search st).2 = st.
Proof.
  unfold get_posts. destruct (_ || _); [done|].
  unfold bind, gets. rewrite for_each_Post_model. by destruct (forallb _ _).
Qed.

Lemma get_comments_store post_id st : (get_comments post_id st).2 = st.
Proof.
  unfold get_comments, bind. rewrite get_post_or_404_eval.
  by destruct (dict_get _ _).
Qed.

Lemma get_posts_by_tag_store tag_name st : (get_posts_by_tag tag_name st).2 = st.
Proof.
  unfold get_posts_by_tag, bind, gets. by rewrite for_each_Post_model.
Qed.

Lemma get_stats_eval st :
  get_stats st
  = (Ok (PostStats.mk
           (Z.of_nat (length (dict_values (posts_db st))))
           (Z.of_nat (length (List.filter Post.published (dict_values (posts_db st)))))
           (Z.of_nat (length (List.filter (fun p => negb (Post.published p))
                                          (dict_values (posts_db st)))))
           (fold_left Z.add (map Post.views (dict_values (posts_db st))) 0)
           (Z.of_nat (length (comments_db st)))
           (slice (sort_desc snd (count_tags (dict_values (posts_db st)))) 0 5)),
     st).
Proof. reflexivity. Qed.

(** ** Partial update (C8) *)


(** ** Every request, case by case *)

Lemma fmap_M_store {A B} (f : A -> B) (m : M A) st : (fmap_M f m st).2 = (m st).2.
Proof. unfold fmap_M, bind, ret. by destruct (m st) as [[a|e] st']. Qed.

Lemma step_posts_step st r : posts_step st r (step st r).
Proof.
  unfold step. destruct r; cbn [handle]; try rewrite fmap_M_store.
  - by apply posts_same.
  - rewrite create_post_eval.
    destruct (title_must_not_be_empty (PostCreate.title post)) eqn:Ht;
      cbn [negb orb]; [|by apply posts_same].
    destruct (String.length author <? 3)%nat; [by apply posts_same|].
    by eapply posts_created.
  - destruct (dict_get post_id (posts_db st)) as [p|] eqn:Hg.
    + rewrite (upload_post_image_eval _ _ _ _ _ _ _ Hg). cbv zeta.
      destruct (startswith _ _); [|by apply posts_same].
      by eapply posts_image.
    + rewrite upload_post_image_missing by done. by apply posts_same.
  - rewrite get_posts_store. by apply posts_same.
  - destruct (dict_get post_id (posts_db st)) as [p|] eqn:Hg.
    + rewrite (get_post_eval _ _ _ Hg). by eapply posts_viewed.
    + rewrite get_post_missing by done. by apply posts_same.
  - destruct (dict_get post_id (posts_db st)) as [p|] eqn:Hg.
    + rewrite (update_post_eval _ post_update now _ _ Hg). by eapply posts_updated.
    + rewrite update_post_missing by done. by apply posts_same.
  - destruct (dict_get post_id (posts_db st)) as [p|] eqn:Hg.
    + destruct (delete_post_eval _ _ _ Hg) as [files ->]. by eapply posts_deleted.
    + rewrite delete_post_missing by done. by apply posts_same.
  - rewrite create_comment_eval.
    destruct (dict_get post_id (posts_db st)); by apply posts_same.
  - rewrite get_comments_store. by apply posts_same.
  - rewrite delete_comment_eval.
    destruct (dict_mem _ _); by apply posts_same.
  - by apply posts_same.
  - rewrite get_posts_by_tag_store. by apply posts_same.
  - by apply posts_same.
Qed.

(** ** Tag registry (C6) *)

Lemma registered_mono (tags : list string) (s : gset string) :
  s ⊆ fold_left (fun s tag => s ∪ {[ lower tag ]}) tags s.
Proof. intros x Hx. apply elem_of_registered. by left. Qed.

Lemma step_tags_db_mono st r : tags_db st ⊆ tags_db (step st r).
Proof.
  destruct (step_posts_step st r) as
    [_ Ht|???? _ _ Ht|??? _ _ Ht|????? _ _ Ht|???????? _ _ Ht|??? _ _ Ht];
    rewrite Ht; try done.
  - apply registered_mono.
  - destruct (PostUpdate.tags u); [apply registered_mono | done].
Qed.

Lemma apply_update_tags u p :
  Post.tags (apply_update u p) = default (Post.tags p) (PostUpdate.tags u).
Proof. by destruct u as [[?|] [?|] [?|] [?|]]. Qed.

Lemma step_tags_registered st r : tags_registered st -> tags_registered (step st r).
Proof.
  intros Hinv. pose proof (step_tags_db_mono st r) as Hmono.
  destruct (step_posts_step st r) as
    [Hp Ht|post author now _ _ Hp Ht|k p _ Hg Hp Ht|k u now p _ Hg Hp Ht
    |k ct fn uuid now url p _ Hg Hp Ht|k p _ Hg Hp Ht];
    intros k' p' t Hin Htag; rewrite Hp in Hin.
  - rewrite Ht. eauto.
  - apply dict_In_set in Hin as [[= -> ->]|Hin]; [|eauto].
    rewrite Ht. apply elem_of_registered. right. eauto.
  - apply dict_In_set in Hin as [[= -> ->]|Hin]; [|eauto].
    apply Hmono. apply dict_get_In in Hg. eauto.
  - apply dict_In_set in Hin as [[= -> ->]|Hin]; [|eauto].
    cbn [Post.tags Post.set_updated_at] in Htag. rewrite apply_update_tags in Htag.
    rewrite Ht. destruct (PostUpdate.tags u) as [tags|]; simpl in Htag.
    + apply elem_of_registered. right. eauto.
    + apply dict_get_In in Hg. eauto.
  - apply dict_In_set in Hin as [[= -> ->]|Hin]; [|eauto].
    apply Hmono. apply dict_get_In in Hg. eauto.
  - apply dict_In_del in Hin as [Hin _]. eauto.
Qed.

Lemma run_snoc st rs r : run st (rs ++ [r]) = step (run st rs) r.
Proof. unfold run. by rewrite fold_left_app. Qed.


(** ** Titles of stored posts (C9), and what a blank one does to reads (C1, C2) *)


(** An [update_post] call that returns a post returns one whose title is
    not blank: the response model checks it, after the store was changed. *)
Lemma update_post_returns_valid post_id u now st p' :
  (update_post post_id u now st).1 = Ok p' -> ~ blank (Post.title p').
Proof.
  destruct (dict_get post_id (posts_db st)) as [p|] eqn:Hg.
  - rewrite (update_post_eval _ u now _ _ Hg). cbv zeta. cbn [fst].
    destruct (title_must_not_be_empty _) eqn:Ht; [|done].
    intros [= <-]. rewrite <- title_rejected_iff. by rewrite Ht.
  - by rewrite update_post_missing.
Qed.

(** C9, on the code. Starting from a store whose only post is titled
    "Hello", [update_post] with a title of three blanks answers with an
    internal error, yet the stored post now has that blank title: the
    store no longer has all its titles non-blank. *)
Theorem update_post_stores_blank_title :
  titles_not_blank store1
  /\ (update_post 1 blank_title_update 20 store1).1 = Err InternalError
  /\ (Post.title <$> dict_get 1 (posts_db store1_blank)) = Some "   "
  /\ blank "   "
  /\ ~ titles_not_blank store1_blank.
Proof.
  assert (blank "   ") as Hb by (by apply title_rejected_iff).
  split_and!; try done.
  - intros k p [[= <- <-]|[]]. by apply Post_valid_iff.
  - intros Hinv. eapply Hinv; [by left | exact Hb].
Qed.

(** C1, on the code. After the two requests that lead to [store1_blank]
    (a post created, then updated with a blank title), one post passes the
    absent filters and page 1 of size 10 is the only page; [get_posts] on
    that page answers with an internal error instead of the record. *)
Theorem get_posts_fails_on_blank_title :
  store1_blank
  = run empty_store [CreatePost hello "alice" 10; UpdatePost 1 blank_title_update 20]
  /\ length (filtered_sorted store1_blank None None None) = 1%nat
  /\ calculate_pagination 1 1 10 = 1
  /\ get_posts 1 10 None None None store1_blank = (Err InternalError, store1_blank).
Proof. by split_and!. Qed.

(** C2, on the code. In [store1_blank] the id 1 exists, yet [get_post 1]
    answers with an internal error; the view counter has gone from 0 to 1
    all the same. *)
Theorem get_post_fails_on_blank_title :
  dict_mem 1 (posts_db store1_blank) = true
  /\ (Post.views <$> dict_get 1 (posts_db store1_blank)) = Some 0
  /\ (get_post 1 store1_blank).1 = Err InternalError
  /\ (Post.views <$> dict_get 1 (posts_db (get_post 1 store1_blank).2)) = Some 1.
Proof. by split_and!. Qed.

(** ** Lookups and the view counter (C10) *)

Lemma apply_update_views u p : Post.views (apply_update u p) = Post.views p.
Proof. by destruct u as [[?|] [?|] [?|] [?|]]. Qed.



(** ** Statistics (C7) *)

Lemma fold_left_add_views (l : list Post.t) acc :
  fold_left Z.add (map Post.views l) acc = acc + sum_views l.
Proof.
  revert acc. induction l as [|p l IH]; intros acc; simpl; [lia|].
  rewrite IH. lia.
Qed.

Lemma filter_split_length {A} (f : A -> bool) (l : list A) :
  (length (List.filter f l) + length (List.filter (fun x => negb (f x)) l)
   = length l)%nat.
Proof.
  induction l as [|x l IH]; [done|].
  simpl. destruct (f x); simpl; lia.
Qed.

Lemma count_tags_flat posts tag_counts :
  fold_left (fun tc post => fold_left count_tag (Post.tags post) tc) posts tag_counts
  = fold_left count_tag (concat (map Post.tags posts)) tag_counts.
Proof.
  revert tag_counts. induction posts as [|p posts IH]; intros tc; [done|].
  simpl. by rewrite fold_left_app, IH.
Qed.

Lemma dict_get_count_tag tc t tag :
  dict_get tag (count_tag tc t)
  = if decide (tag = t) then Some (default 0 (dict_get t tc) + 1) else dict_get tag tc.
Proof.
  unfold count_tag. destruct (decide (tag = t)) as [->|Hne].
  - apply dict_get_set_eq.
  - apply dict_get_set_ne. congruence.
Qed.

Lemma dict_get_fold_count (l : list string) tc tag :
  dict_get tag (fold_left count_tag l tc)
  = if decide (count_occ string_dec l tag = 0%nat) then dict_get tag tc
    else Some (default 0 (dict_get tag tc) + Z.of_nat (count_occ string_dec l tag)).
Proof.
  revert tc. induction l as [|t l IH]; intros tc; [done|].
  cbn [fold_left count_occ]. rewrite IH, dict_get_count_tag.
  destruct (string_dec t tag) as [->|Hne].
  - rewrite (decide_True (P := tag = tag)) by done.
    rewrite (decide_False (P := S _ = 0%nat)) by done.
    cbn [default from_option]. unfold id.
    destruct (decide (count_occ string_dec l tag = 0%nat)) as [->|_]; f_equal; lia.
  - by rewrite (decide_False (P := tag = t)) by done.
Qed.

Lemma count_tags_get posts tag :
  dict_get tag (count_tags posts)
  = if decide (occurrences tag posts = 0) then None else Some (occurrences tag posts).
Proof.
  unfold count_tags, occurrences. rewrite count_tags_flat, dict_get_fold_count.
  cbn [dict_get default].
  destruct (decide (count_occ _ _ _ = 0%nat)) as [->|Hne]; [done|].
  rewrite decide_False by lia. f_equal.
Qed.

Lemma count_tags_wf posts : dict_wf (count_tags posts).
Proof.
  unfold count_tags. rewrite count_tags_flat.
  assert (forall l (tc : list (string * Z)),
            dict_wf tc -> dict_wf (fold_left count_tag l tc)) as H.
  { induction l as [|t l IH]; intros tc Hwf; [done|].
    apply IH. by apply dict_wf_set. }
  apply H. constructor.
Qed.

Lemma count_tags_In posts tag n :
  In (tag, n) (count_tags posts) <-> n = occurrences tag posts /\ 1 <= n.
Proof.
  assert (0 <= occurrences tag posts) by (unfold occurrences; lia).
  split.
  - intros Hin%(dict_wf_get _ _ _ (count_tags_wf posts)).
    rewrite count_tags_get in Hin. destruct (decide _); [done|].
    injection Hin as <-. lia.
  - intros [-> Hn]. apply dict_get_In. rewrite count_tags_get.
    by rewrite decide_False by lia.
Qed.

Lemma filter_take_prefix {A} (f : A -> bool) n (l : list A) :
  List.filter f (take n l) `prefix_of` List.filter f l.
Proof.
  rewrite <- (take_drop n l) at 2. rewrite List.filter_app.
  by apply prefix_app_r.
Qed.

Lemma count_once (keys : list Z) (x : Z) :
  NoDup keys -> In x keys ->
  fold_right (fun k acc => (if x =? k then 1 else 0) + acc) 0 keys = 1.
Proof.
  induction keys as [|k keys IH]; [by intros _ []|].
  intros [Hnot Hnd]%NoDup_cons [<-|Hin]; cbn [fold_right].
  - rewrite Z.eqb_refl.
    assert (fold_right (fun k0 acc => (if k =? k0 then 1 else 0) + acc) 0 keys = 0) as ->; [|done].
    clear IH Hnd. induction keys as [|k' keys IH]; [done|].
    apply not_elem_of_cons in Hnot as [Hne Hnot]. cbn [fold_right].
    rewrite (proj2 (Z.eqb_neq k k')) by done. by rewrite IH.
  - destruct (Z.eqb_spec x k) as [->|_].
    + exfalso. by apply Hnot, list_elem_of_In.
    + by rewrite IH.
Qed.

Lemma comments_by_post (keys : list Z) (cs : list Comment.t) :
  NoDup keys ->
  (forall c, In c cs -> In (Comment.post_id c) keys) ->
  fold_right
    (fun k acc => Z.of_nat (length (List.filter (fun c => Comment.post_id c =? k) cs)) + acc)
    0 keys
  = Z.of_nat (length cs).
Proof.
  intros Hnd. induction cs as [|c cs IH]; intros Hin.
  - simpl. clear Hnd Hin. induction keys as [|k keys IH]; [done|]. simpl in *. lia.
  - cbn [length]. rewrite Nat2Z.inj_succ, <- Z.add_1_l.
    rewrite <- IH by (intros; apply Hin; by right).
    rewrite <- (count_once keys (Comment.post_id c) Hnd) by (apply Hin; by left).
    clear. induction keys as [|k keys IHk]; [done|].
    cbn [fold_right]. rewrite IHk. cbn [List.filter].
    destruct (Comment.post_id c =? k); cbn [length]; lia.
Qed.

(** C7. On every store [get_stats] returns a record, and leaves the store
    alone, such that: published and draft posts add up to all posts;
    [total_views] is the sum of the posts' view counters; [total_comments]
    is the number of stored comments, which is the number of comments
    counted post by post when every comment belongs to a stored post;
    [popular_tags] has at most five
    entries, no tag twice, each with the number of times that tag string is
    attached to a post (at least once, whatever the registry holds), in
    descending order of that number; a tag attached to some post and not
    listed is not more frequent than any listed one, and then the list is
    full; among equal counts the order is the one in which [count_tags]
    first met the tags. *)
Theorem get_stats_summary st :
  let posts := dict_values (posts_db st) in
  exists s,
    get_stats st = (Ok s, st)
    /\ PostStats.published_posts s + PostStats.draft_posts s = PostStats.total_posts s
    /\ PostStats.total_posts s = Z.of_nat (length (posts_db st))
    /\ PostStats.published_posts s
       = Z.of_nat (length (List.filter (fun p => Post.published p) posts))
    /\ PostStats.draft_posts s
       = Z.of_nat (length (List.filter (fun p => negb (Post.published p)) posts))
    /\ PostStats.total_views s = sum_views posts
    /\ PostStats.total_comments s = Z.of_nat (length (comments_db st))
    /\ (length (PostStats.popular_tags s) <= 5)%nat
    /\ NoDup (map fst (PostStats.popular_tags s))
    /\ (forall tag n, In (tag, n) (PostStats.popular_tags s) ->
          n = occurrences tag posts /\ 1 <= n)
    /\ by_count_desc (PostStats.popular_tags s)
    /\ (forall tag, 1 <= occurrences tag posts ->
          In (tag, occurrences tag posts) (PostStats.popular_tags s)
          \/ (length (PostStats.popular_tags s) = 5%nat
              /\ forall tag' n', In (tag', n') (PostStats.popular_tags s) ->
                   occurrences tag posts <= n'))
    /\ (forall n, List.filter (fun e => e.2 =? n) (PostStats.popular_tags s)
                  `prefix_of` List.filter (fun e => e.2 =? n) (count_tags posts))
    /\ (dict_wf (posts_db st) -> comments_attached st ->
        PostStats.total_comments s = comments_across_posts st).
Proof.
  intros posts. rewrite get_stats_eval. fold posts. eexists. split; [done|].
  cbn [PostStats.total_posts PostStats.published_posts PostStats.draft_posts
       PostStats.total_views PostStats.total_comments PostStats.popular_tags].
  set (sorted := sort_desc snd (count_tags posts)).
  assert (slice sorted 0 5 = take 5 sorted) as ->.
  { by rewrite slice_take_drop by lia. }
  assert (sorted ≡ₚ count_tags posts) as Hperm by apply sort_by_perm.
  assert (by_count_desc sorted) as Hsorted by apply sort_desc_sorted.
  assert (forall e, In e (take 5 sorted) -> In e (count_tags posts)) as Hsub.
  { intros e He. apply (Permutation_in _ Hperm).
    rewrite <- (take_drop 5 sorted). apply in_or_app. by left. }
  split_and!.
  - pose proof (filter_split_length Post.published posts). lia.
  - subst posts. unfold dict_values. by rewrite length_map.
  - done.
  - done.
  - by rewrite fold_left_add_views.
  - done.
  - rewrite length_take. lia.
  - rewrite <- firstn_map. eapply sublist_NoDup; [|apply sublist_take].
    rewrite (Permutation_map fst Hperm). apply count_tags_wf.
  - intros tag n Hin. by apply count_tags_In, Hsub.
  - unfold by_count_desc in *. rewrite <- (take_drop 5 sorted) in Hsorted.
    by apply StronglySorted_app_1_l in Hsorted.
  - intros tag Htag.
    assert (In (tag, occurrences tag posts) sorted) as Hin.
    { apply (Permutation_in _ (Permutation_sym Hperm)). by apply count_tags_In. }
    rewrite <- (take_drop 5 sorted) in Hin. apply in_app_or in Hin as [Hin|Hin]; [by left|].
    right. split.
    + apply length_take_le. destruct (decide (5 <= length sorted)%nat); [done|].
      rewrite drop_ge in Hin by lia. destruct Hin.
    + intros tag' n' Hin'. unfold by_count_desc in Hsorted.
      rewrite <- (take_drop 5 sorted) in Hsorted.
      apply (StronglySorted_app_1_elem_of _ _ _ (tag', n') (tag, occurrences tag posts))
        in Hsorted; [done| |]; by apply list_elem_of_In.
  - intros n. etrans; [apply filter_take_prefix|].
    subst sorted. by rewrite sort_desc_stable.
  - intros Hwf Hatt. unfold comments_across_posts.
    rewrite comments_by_post; [by unfold dict_values; rewrite length_map | done |].
    intros c ([cid c'] & <- & Hin)%in_map_iff. simpl.
    specialize (Hatt _ _ Hin).
    destruct (dict_get (Comment.post_id c') (posts_db st)) as [p|] eqn:Hg; [|done].
    apply dict_get_In in Hg. change (Comment.post_id c') with (Comment.post_id c', p).1.
    by apply in_map.
Qed.

(** ** Reachable stores are well formed *)

Lemma step_posts_wf st r : dict_wf (posts_db st) -> dict_wf (posts_db (step st r)).
Proof.
  intros Hwf.
  destruct (step_posts_step st r) as
    [Hp _|??? _ _ Hp _|?? _ _ Hp _|???? _ _ Hp _|??????? _ _ Hp _|?? _ _ Hp _];
    rewrite Hp; auto with dict.
Qed.

Lemma step_comments_wf st r :
  dict_wf (comments_db st) -> dict_wf (comments_db (step st r)).
Proof.
  intros Hwf. unfold step. destruct r; cbn [handle]; try rewrite fmap_M_store; try done.
  - rewrite create_post_eval. by destruct (_ || _).
  - destruct (dict_get post_id (posts_db st)) as [p|] eqn:Hg.
    + rewrite (upload_post_image_eval _ _ _ _ _ _ _ Hg). cbv zeta.
      by destruct (startswith _ _).
    + by rewrite upload_post_image_missing.
  - by rewrite get_posts_store.
  - destruct (dict_get post_id (posts_db st)) as [p|] eqn:Hg.
    + by rewrite (get_post_eval _ _ _ Hg).
    + by rewrite get_post_missing.
  - destruct (dict_get post_id (posts_db st)) as [p|] eqn:Hg.
    + by rewrite (update_post_eval _ post_update now _ _ Hg).
    + by rewrite update_post_missing.
  - destruct (dict_get post_id (posts_db st)) as [p|] eqn:Hg.
    + destruct (delete_post_eval _ _ _ Hg) as [files ->]. by apply dict_del_fold_wf.
    + by rewrite delete_post_missing.
  - rewrite create_comment_eval.
    destruct (dict_get post_id (posts_db st)); [by apply dict_wf_set | done].
  - by rewrite get_comments_store.
  - rewrite delete_comment_eval.
    destruct (dict_mem _ _); [by apply dict_wf_del | done].
  - by rewrite get_posts_by_tag_store.
Qed.

Lemma apply_update_id u p : Post.id (apply_update u p) = Post.id p.
Proof. by destruct u as [[?|] [?|] [?|] [?|]]. Qed.

Lemma step_ids_are_keys st r : ids_are_keys st -> ids_are_keys (step st r).
Proof.
  intros Hinv.
  destruct (step_posts_step st r) as
    [Hp _|post author now _ _ Hp _|k p _ Hg Hp _|k u now p _ Hg Hp _
    |k ct fn uuid now url p _ Hg Hp _|k p _ Hg Hp _];
    intros k' p' Hin; rewrite Hp in Hin.
  - eauto.
  - apply dict_In_set in Hin as [[= -> ->]|Hin]; [done | eauto].
  - apply dict_In_set in Hin as [[= -> ->]|Hin]; [|eauto].
    apply dict_get_In in Hg. apply (Hinv _ _ Hg).
  - apply dict_In_set in Hin as [[= -> ->]|Hin]; [|eauto].
    apply dict_get_In in Hg. cbn [Post.id Post.set_updated_at].
    rewrite apply_update_id. apply (Hinv _ _ Hg).
  - apply dict_In_set in Hin as [[= -> ->]|Hin]; [|eauto].
    apply dict_get_In in Hg. apply (Hinv _ _ Hg).
  - apply dict_In_del in Hin as [Hin _]. eauto.
Qed.

Lemma dict_get_set_some {V} (k k' : Z) (v : V) d :
  dict_get k d <> None -> dict_get k (dict_set k' v d) <> None.
Proof.
  intros Hk. destruct (decide (k' = k)) as [->|Hne].
  - by rewrite dict_get_set_eq.
  - by rewrite dict_get_set_ne.
Qed.

Lemma step_comments_attached st r :
  comments_attached st -> comments_attached (step st r).
Proof.
  intros Hinv. unfold step.
  destruct r; cbn [handle]; try rewrite fmap_M_store; try done.
  - rewrite create_post_eval. destruct (_ || _); [done|].
    intros cid c Hin. apply dict_get_set_some. eauto.
  - destruct (dict_get post_id (posts_db st)) as [p|] eqn:Hg.
    + rewrite (upload_post_image_eval _ _ _ _ _ _ _ Hg). cbv zeta.
      destruct (startswith _ _); [|done].
      intros cid c Hin. apply dict_get_set_some. eauto.
    + by rewrite upload_post_image_missing.
  - by rewrite get_posts_store.
  - destruct (dict_get post_id (posts_db st)) as [p|] eqn:Hg.
    + rewrite (get_post_eval _ _ _ Hg).
      intros cid c Hin. apply dict_get_set_some. eauto.
    + by rewrite get_post_missing.
  - destruct (dict_get post_id (posts_db st)) as [p|] eqn:Hg.
    + rewrite (update_post_eval _ post_update now _ _ Hg).
      intros cid c Hin. apply dict_get_set_some. eauto.
    + by rewrite update_post_missing.
  - destruct (dict_get post_id (posts_db st)) as [p|] eqn:Hg.
    + destruct (delete_post_eval _ _ _ Hg) as [files ->].
      intros cid c [Hin Hk]%dict_In_del_fold. cbn [snd posts_db].
      rewrite dict_get_del_ne; [eauto|].
      intros Heq. apply Hk, cascade_keys. eauto.
    + by rewrite delete_post_missing.
  - rewrite create_comment_eval.
    destruct (dict_get post_id (posts_db st)) as [p|] eqn:Hg; [|done].
    intros cid c [[= -> ->]|Hin]%dict_In_set; [|eauto].
    cbn [snd posts_db Comment.post_id]. by rewrite Hg.
  - by rewrite get_comments_store.
  - rewrite delete_comment_eval. destruct (dict_mem _ _); [|done].
    intros cid c [Hin _]%dict_In_del. eauto.
  - by rewrite get_posts_by_tag_store.
Qed.


Lemma reachable_run rs : reachable (run empty_store rs).
Proof.
  induction rs as [|r rs IH] using rev_ind; [constructor|].
  rewrite run_snoc. by constructor.
Qed.

(** ** The theorems at work on the sample stores *)









(** The statistics of [store2]. *)
Lemma get_stats_summary_witness :
  exists s, get_stats store2 = (Ok s, store2)
            /\ PostStats.total_posts s = 2
            /\ PostStats.total_comments s = 3
            /\ PostStats.popular_tags s = [("Go", 1); ("go", 1)].
Proof.
  destruct (get_stats_summary store2) as (s & Hs & _).
  exists s. split; [exact Hs|].
  rewrite get_stats_eval in Hs. injection Hs as <-. by vm_compute.
Defined.




(** * Further properties of the routes *)

(** ** The store after a request *)

Lemma step_store_step st r : store_step st r (step st r).
Proof.
  unfold step. destruct r; cbn [handle]; try rewrite fmap_M_store.
  - constructor.
  - rewrite create_post_eval.
    destruct (title_must_not_be_empty (PostCreate.title post)) eqn:Ht;
      cbn [negb orb]; [|constructor].
    destruct (Nat.ltb_spec (String.length author) 3); [constructor|].
    by eapply store_created.
  - destruct (dict_get post_id (posts_db st)) as [p|] eqn:Hg.
    + rewrite (upload_post_image_eval _ _ _ _ _ _ _ Hg). cbv zeta.
      destruct (startswith _ _) eqn:Hs; [|constructor].
      by eapply store_image.
    + rewrite upload_post_image_missing by done. constructor.
  - rewrite get_posts_store. constructor.
  - destruct (dict_get post_id (posts_db st)) as [p|] eqn:Hg.
    + rewrite (get_post_eval _ _ _ Hg). by eapply store_viewed.
    + rewrite get_post_missing by done. constructor.
  - destruct (dict_get post_id (posts_db st)) as [p|] eqn:Hg.
    + rewrite (update_post_eval _ post_update now _ _ Hg). by eapply store_updated.
    + rewrite update_post_missing by done. constructor.
  - destruct (dict_get post_id (posts_db st)) as [p|] eqn:Hg.
    + destruct (delete_post_eval _ _ _ Hg) as [files ->]. by eapply store_deleted.
    + rewrite delete_post_missing by done. constructor.
  - rewrite create_comment_eval.
    destruct (dict_get post_id (posts_db st)) eqn:Hg; [|constructor].
    by eapply store_commented.
  - rewrite get_comments_store. constructor.
  - rewrite delete_comment_eval.
    destruct (dict_mem _ _) eqn:Hm; [|constructor]. by eapply store_uncommented.
  - constructor.
  - rewrite get_posts_by_tag_store. constructor.
  - constructor.
Qed.

Lemma reachable_run_from st rs : reachable st -> reachable (run st rs).
Proof.
  intros Hr. induction rs as [|r rs IH] using rev_ind; [done|].
  rewrite run_snoc. by constructor.
Qed.

(** ** Identifiers *)

Lemma step_counters_mono st r :
  post_counter st <= post_counter (step st r)
  /\ comment_counter st <= comment_counter (step st r).
Proof.
  destruct (step_store_step st r); unfold set_posts_db, set_comments_db;
    cbn [post_counter comment_counter]; lia.
Qed.

Lemma run_counters_mono st rs :
  post_counter st <= post_counter (run st rs)
  /\ comment_counter st <= comment_counter (run st rs).
Proof.
  induction rs as [|r rs IH] using rev_ind; [done|].
  rewrite run_snoc. pose proof (step_counters_mono (run st rs) r). lia.
Qed.

Lemma dict_keys_In {V} (k : Z) (d : list (Z * V)) :
  In k (dict_keys d) <-> exists v, In (k, v) d.
Proof.
  unfold dict_keys. rewrite in_map_iff. split.
  - intros ([k' v] & <- & Hin). by exists v.
  - intros [v Hin]. by exists (k, v).
Qed.

Lemma step_ids_bounded st r : ids_bounded st -> ids_bounded (step st r).
Proof.
  intros (H0p & H0c & Hp & Hc).
  destruct (step_store_step st r) as
    [|post author now _ _ _|k ct fn uuid now p _ Hg _|k p _ Hg|k u now p _ Hg
    |k p files _ Hg|k comment now p _ Hg|cid _ _];
    (split_and!;
     cbn [posts_db comments_db post_counter comment_counter set_posts_db set_comments_db];
     try done; try lia).
  - intros k p [[= -> ->]|Hin]%dict_In_set; [lia|]. specialize (Hp _ _ Hin). lia.
  - intros k0 p0 [[= -> ->]|Hin]%dict_In_set; [|eauto].
    apply dict_get_In in Hg. eauto.
  - intros k0 p0 [[= -> ->]|Hin]%dict_In_set; [|eauto].
    apply dict_get_In in Hg. eauto.
  - intros k0 p0 [[= -> ->]|Hin]%dict_In_set; [|eauto].
    apply dict_get_In in Hg. eauto.
  - intros k0 p0 [Hin _]%dict_In_del. eauto.
  - intros k0 c [Hin _]%dict_In_del_fold. eauto.
  - intros k0 c [[= -> ->]|Hin]%dict_In_set; [lia|]. specialize (Hc _ _ Hin). lia.
  - intros k0 c [Hin _]%dict_In_del. eauto.
Qed.

Lemma reachable_ids_bounded st : reachable st -> ids_bounded st.
Proof.
  induction 1 as [|st r _ IH]; [|by apply step_ids_bounded].
  split_and!; try done; by intros ?? [].
Qed.

(** A key that is free and not above the counter stays free. *)
Lemma step_retired_id st r k :
  k <= post_counter st -> dict_get k (posts_db st) = None ->
  dict_get k (posts_db (step st r)) = None.
Proof.
  intros Hk Hnone.
  destruct (step_store_step st r) as
    [|post author now _ _ _|k0 ct fn uuid now p _ Hg _|k0 p _ Hg|k0 u now p _ Hg
    |k0 p files _ Hg|k0 comment now p _ Hg|cid _ _];
    cbn [posts_db set_posts_db set_comments_db]; try done.
  - rewrite dict_get_set_ne by lia. done.
  - rewrite dict_get_set_ne; [done | congruence].
  - rewrite dict_get_set_ne; [done | congruence].
  - rewrite dict_get_set_ne; [done | congruence].
  - destruct (decide (k0 = k)) as [->|Hne];
      [apply dict_get_del_eq | by rewrite dict_get_del_ne].
Qed.

Lemma step_retired_comment_id st r k :
  k <= comment_counter st -> dict_get k (comments_db st) = None ->
  dict_get k (comments_db (step st r)) = None.
Proof.
  intros Hk Hnone.
  destruct (step_store_step st r) as
    [|post author now _ _ _|k0 ct fn uuid now p _ Hg _|k0 p _ Hg|k0 u now p _ Hg
    |k0 p files _ Hg|k0 comment now p _ Hg|cid _ _];
    cbn [comments_db set_posts_db set_comments_db]; try done.
  - apply dict_get_None. intros (c & [Hin _]%dict_In_del_fold)%dict_keys_In.
    apply dict_get_None in Hnone. apply Hnone, dict_keys_In. eauto.
  - rewrite dict_get_set_ne by lia. done.
  - destruct (decide (cid = k)) as [->|Hne];
      [apply dict_get_del_eq | by rewrite dict_get_del_ne].
Qed.

(** Ids are never handed out twice. Both counters only grow along any
    sequence of requests. A post id, or a comment id, that is free and not
    above its counter (an id that was used and deleted, in a reachable
    store) stays free for ever: a post created later gets an id above the
    counter, under which nothing is stored yet. *)
Theorem ids_never_reused st rs :
  post_counter st <= post_counter (run st rs)
  /\ comment_counter st <= comment_counter (run st rs)
  /\ (forall k, k <= post_counter st -> dict_get k (posts_db st) = None ->
        dict_get k (posts_db (run st rs)) = None)
  /\ (forall k, k <= comment_counter st -> dict_get k (comments_db st) = None ->
        dict_get k (comments_db (run st rs)) = None)
  /\ (reachable st -> ids_bounded (run st rs))
  /\ (reachable st -> forall post author now p,
        (create_post post author now (run st rs)).1 = Ok p ->
        post_counter st < Post.id p
        /\ dict_get (Post.id p) (posts_db (run st rs)) = None)
  /\ (reachable st -> forall post_id comment now c,
        (create_comment post_id comment now (run st rs)).1 = Ok c ->
        comment_counter st < Comment.id c
        /\ dict_get (Comment.id c) (comments_db (run st rs)) = None).
Proof.
  pose proof (run_counters_mono st rs) as [Hpc Hcc].
  assert (forall k v (d : list (Z * Post.t)), dict_get k d = Some v -> In (k, v) d)
    as Hin by (intros; by apply dict_get_In).
  split_and!; try done.
  - intros k Hk Hnone. induction rs as [|r rs IH] using rev_ind; [done|].
    rewrite run_snoc. pose proof (run_counters_mono st rs) as [? _].
    apply step_retired_id; [lia | apply IH; apply run_counters_mono].
  - intros k Hk Hnone. induction rs as [|r rs IH] using rev_ind; [done|].
    rewrite run_snoc. pose proof (run_counters_mono st rs) as [_ ?].
    apply step_retired_comment_id; [lia | apply IH; apply run_counters_mono].
  - intros Hr. by apply reachable_ids_bounded, reachable_run_from.
  - intros Hr post author now p Hok.
    pose proof (reachable_ids_bounded _ (reachable_run_from _ rs Hr)) as (_ & _ & Hb & _).
    rewrite create_post_eval in Hok. destruct (_ || _); [done|].
    cbv zeta in Hok. cbn [fst] in Hok. injection Hok as <-. cbn [Post.id].
    split; [lia|].
    destruct (dict_get _ (posts_db (run st rs))) as [q|] eqn:Hq; [|done].
    apply dict_get_In, Hb in Hq. lia.
  - intros Hr post_id comment now c Hok.
    pose proof (reachable_ids_bounded _ (reachable_run_from _ rs Hr)) as (_ & _ & _ & Hb).
    rewrite create_comment_eval in Hok.
    destruct (dict_get post_id _); [|done].
    cbv zeta in Hok. cbn [fst] in Hok. injection Hok as <-. cbn [Comment.id].
    split; [lia|].
    destruct (dict_get _ (comments_db (run st rs))) as [q|] eqn:Hq; [|done].
    apply dict_get_In, Hb in Hq. lia.
Qed.

(** ** Errors *)

Lemma fmap_M_eval {A B} (f : A -> B) (m : M A) st :
  fmap_M f m st
  = (match (m st).1 with Ok a => Ok (f a) | Err e => Err e end, (m st).2).
Proof. unfold fmap_M, bind, ret. by destruct (m st) as [[a|e] st']. Qed.

Lemma fmap_M_error {A B} (f : A -> B) (m : M A) st e :
  (fmap_M f m st).1 = Err e <-> (m st).1 = Err e.
Proof.
  rewrite fmap_M_eval. cbn [fst]. destruct (m st).1; split; congruence.
Qed.

Lemma titles_not_blank_values st p :
  titles_not_blank st -> In p (dict_values (posts_db st)) -> Post_valid p.
Proof.
  intros Hinv ([k q] & <- & Hin)%in_map_iff. apply Post_valid_iff. eauto.
Qed.

Lemma forallb_Post_valid st (l : list Post.t) :
  titles_not_blank st -> (forall p, In p l -> In p (dict_values (posts_db st))) ->
  forallb (fun p => title_must_not_be_empty (Post.title p)) l = true.
Proof.
  intros Hinv Hsub. apply forallb_forall. intros p Hp.
  by apply (titles_not_blank_values st), Hsub.
Qed.

Lemma apply_update_new_title u p :
  Post.title (apply_update u p) = default (Post.title p) (PostUpdate.title u).
Proof. by destruct u as [[?|] [?|] [?|] [?|]]. Qed.

(** The welcome, tag and statistics routes always answer. *)
Ltac never_fails H :=
  unfold ret, get_tags, gets in H; rewrite ?get_stats_eval in H; discriminate H.

(** A request that is refused with [NotFoundError], [ValidationError] or
    [InvalidMediaError] leaves the store exactly as it was: these routes
    check before they write. *)
Theorem refused_requests_change_nothing st r e :
  (handle r st).1 = Err e -> e <> InternalError -> (handle r st).2 = st.
Proof.
  intros Herr Hne. destruct r; cbn [handle] in *;
    try apply fmap_M_error in Herr; try never_fails Herr;
    rewrite fmap_M_store.
  - rewrite create_post_eval in *. by destruct (_ || _).
  - destruct (dict_get post_id (posts_db st)) as [p|] eqn:Hg.
    + rewrite (upload_post_image_eval _ _ _ _ _ _ _ Hg) in *. cbv zeta in *.
      by destruct (startswith _ _).
    + by rewrite upload_post_image_missing.
  - apply get_posts_store.
  - destruct (dict_get post_id (posts_db st)) as [p|] eqn:Hg.
    + rewrite (get_post_eval _ _ _ Hg) in Herr. cbn [fst] in Herr.
      destruct (title_must_not_be_empty _); congruence.
    + by rewrite get_post_missing.
  - destruct (dict_get post_id (posts_db st)) as [p|] eqn:Hg.
    + rewrite (update_post_eval _ post_update now _ _ Hg) in Herr. cbv zeta in Herr.
      cbn [fst] in Herr. destruct (title_must_not_be_empty _); congruence.
    + by rewrite update_post_missing.
  - destruct (dict_get post_id (posts_db st)) as [p|] eqn:Hg.
    + destruct (delete_post_eval _ _ _ Hg) as [files Hd]. by rewrite Hd in Herr.
    + by rewrite delete_post_missing.
  - rewrite create_comment_eval in *. by destruct (dict_get _ _).
  - apply get_comments_store.
  - rewrite delete_comment_eval in *. by destruct (dict_mem _ _).
  - apply get_posts_by_tag_store.
Qed.


(** The listing and statistics routes never write: whatever they answer,
    the store is the one they were given. *)
Theorem read_only_routes_keep_store st r :
  read_only r = true -> (handle r st).2 = st.
Proof.
  destruct r; try discriminate; intros _; cbn [handle];
    rewrite ?fmap_M_store;
    auto using get_posts_store, get_comments_store, get_posts_by_tag_store.
Qed.

(** ** Creating a post *)

Lemma dict_set_In {V} (k : Z) (v : V) d : In (k, v) (dict_set k v d).
Proof. apply dict_get_In, dict_get_set_eq. Qed.

Lemma title_accepted_iff v : title_must_not_be_empty v = true <-> ~ blank v.
Proof.
  rewrite <- title_rejected_iff. destruct (title_must_not_be_empty v); split; done.
Qed.


(** ** Comments *)

(** [create_comment] on an unknown post fails with [NotFoundError] and
    consumes no id. On a stored post it returns the comment, with the next
    comment id, the post id and the time of the call; the comment is
    stored under its id, [get_comments] on that post lists it, and nothing
    else in the store changes. *)
Theorem create_comment_attaches st post_id comment now :
  (dict_get post_id (posts_db st) = None ->
     create_comment post_id comment now st = (Err NotFoundError, st))
  /\ (dict_get post_id (posts_db st) <> None ->
      let n := comment_counter st + 1 in
      let c := Comment.mk n post_id now (CommentCreate.content comment)
                          (CommentCreate.author comment) in
      let st' := (create_comment post_id comment now st).2 in
      (create_comment post_id comment now st).1 = Ok c
      /\ comment_counter st' = n
      /\ dict_get n (comments_db st') = Some c
      /\ (forall k, k <> n -> dict_get k (comments_db st') = dict_get k (comments_db st))
      /\ posts_db st' = posts_db st
      /\ tags_db st' = tags_db st
      /\ post_counter st' = post_counter st
      /\ exists l, get_comments post_id st' = (Ok l, st') /\ In c l).
Proof.
  rewrite create_comment_eval. split.
  - by intros ->.
  - intros Hex. destruct (dict_get post_id (posts_db st)) as [p|] eqn:Hg; [|done].
    cbv zeta. cbn [fst snd posts_db comments_db tags_db post_counter comment_counter].
    split_and!; try done.
    + apply dict_get_set_eq.
    + intros k Hk. apply dict_get_set_ne. congruence.
    + eexists. split.
      * unfold get_comments, bind. rewrite get_post_or_404_eval. cbn [posts_db].
        rewrite Hg. reflexivity.
      * unfold sort_desc. rewrite sort_by_In. cbn [comments_db].
        apply filter_In. split; [|apply Z.eqb_refl].
        unfold dict_values. apply in_map_iff. eexists (_, _).
        split; [|apply dict_set_In]. done.
Qed.

(** [get_comments] on an unknown post fails with [NotFoundError]. On a
    stored post it returns, without touching the store, exactly the stored
    comments of that post, newest first; comments with the same timestamp
    keep the order in which they were stored. *)
Theorem get_comments_lists_post st post_id :
  (dict_get post_id (posts_db st) = None ->
     get_comments post_id st = (Err NotFoundError, st))
  /\ (dict_get post_id (posts_db st) <> None ->
      exists l,
        get_comments post_id st = (Ok l, st)
        /\ (forall c, In c l
                      <-> In c (dict_values (comments_db st))
                          /\ Comment.post_id c = post_id)
        /\ l ≡ₚ List.filter (fun c => Comment.post_id c =? post_id)
                            (dict_values (comments_db st))
        /\ StronglySorted (fun a b => Comment.created_at b <= Comment.created_at a) l
        /\ (forall t, List.filter (fun c => Comment.created_at c =? t) l
                      = List.filter (fun c => Comment.created_at c =? t)
                          (List.filter (fun c => Comment.post_id c =? post_id)
                                       (dict_values (comments_db st))))).
Proof.
  split; [apply get_comments_missing|].
  intros Hex. eexists. split_and!.
  - unfold get_comments, bind. rewrite get_post_or_404_eval.
    destruct (dict_get post_id (posts_db st)); [reflexivity | done].
  - intros c. unfold sort_desc. rewrite sort_by_In, filter_In, Z.eqb_eq. done.
  - apply sort_by_perm.
  - apply sort_desc_sorted.
  - intros t. apply sort_desc_stable.
Qed.

(** [delete_comment] on an unknown id fails with [NotFoundError] and
    changes nothing. On a stored id it removes that comment and nothing
    else: every other comment, the posts, the registry and the counters
    stay, and deleting the same id again fails with [NotFoundError]. *)
Theorem delete_comment_removes_one st cid :
  (dict_get cid (comments_db st) = None ->
     delete_comment cid st = (Err NotFoundError, st))
  /\ (dict_get cid (comments_db st) <> None ->
      let st' := (delete_comment cid st).2 in
      (delete_comment cid st).1 = Ok tt
      /\ dict_get cid (comments_db st') = None
      /\ (forall k, k <> cid -> dict_get k (comments_db st') = dict_get k (comments_db st))
      /\ posts_db st' = posts_db st
      /\ tags_db st' = tags_db st
      /\ post_counter st' = post_counter st
      /\ comment_counter st' = comment_counter st
      /\ delete_comment cid st' = (Err NotFoundError, st')).
Proof.
  split; [apply delete_comment_missing|].
  intros Hex. cbv zeta. rewrite delete_comment_eval. unfold dict_mem.
  destruct (dict_get cid (comments_db st)) as [c|] eqn:Hg; [|done].
  cbn [fst snd posts_db comments_db tags_db post_counter comment_counter set_comments_db].
  split_and!; try done.
  - apply dict_get_del_eq.
  - intros k Hk. apply dict_get_del_ne. congruence.
  - apply delete_comment_missing. cbn [comments_db]. apply dict_get_del_eq.
Qed.

(** ** The tag registry as a list *)

Lemma ltb_leb (a b : string) : String.ltb a b = true -> String.leb a b = true.
Proof. unfold String.ltb, String.leb. by destruct (String.compare a b). Qed.

Lemma ltb_false_leb (a b : string) : String.ltb a b = false -> String.leb b a = true.
Proof.
  unfold String.ltb, String.leb. rewrite (String.compare_antisym a b).
  by destruct (String.compare b a).
Qed.

Lemma leb_trans (a b c : string) :
  String.leb a b = true -> String.leb b c = true -> String.leb a c = true.
Proof.
  intros Hab%Is_true_true Hbc%Is_true_true. apply Is_true_true.
  exact (transitivity (R := String.le) Hab Hbc).
Qed.

Lemma insert_by_In {A} (prec : A -> A -> bool) x y l :
  In y (insert_by prec x l) <-> y = x \/ In y l.
Proof.
  induction l as [|z l IH]; simpl; [intuition congruence|].
  destruct (prec z x); simpl; [rewrite IH|]; intuition congruence.
Qed.

Lemma insert_by_ascending x l :
  ascending l -> ascending (insert_by String.ltb x l).
Proof.
  unfold ascending. induction 1 as [|y l Hs IH Hy]; simpl.
  - repeat constructor.
  - destruct (String.ltb y x) eqn:Hyx.
    + constructor; [done|]. apply List.Forall_forall.
      intros z [->|Hz]%insert_by_In; [by apply ltb_leb|].
      by eapply List.Forall_forall in Hy.
    + apply ltb_false_leb in Hyx. constructor; [by constructor|].
      constructor; [done|]. apply List.Forall_forall. intros z Hz.
      eapply List.Forall_forall in Hy; [|done]. by eapply leb_trans.
Qed.

Lemma sorted_strings_ascending l : ascending (sorted_strings l).
Proof.
  induction l as [|x l IH]; [constructor|].
  unfold sorted_strings, sort_by in *. simpl. by apply insert_by_ascending.
Qed.

Lemma lower_ascii_idem c : lower_ascii (lower_ascii c) = lower_ascii c.
Proof. destruct c as [[] [] [] [] [] [] [] []]; reflexivity. Qed.

Lemma lower_idem s : lower (lower s) = lower s.
Proof. induction s as [|c s IH]; simpl; [done|]. by rewrite lower_ascii_idem, IH. Qed.

Lemma step_registry_lower st r :
  (forall x, x ∈ tags_db st -> lower x = x) ->
  forall x, x ∈ tags_db (step st r) -> lower x = x.
Proof.
  intros Hst x.
  destruct (step_store_step st r) as
    [|post author now _ _ _|k ct fn uuid now p _ _ _|k p _ _|k u now p _ _
     |k p files _ _|k comment now p _ _|cid _ _];
    unfold set_posts_db, set_comments_db; cbn [tags_db]; try apply Hst.
  - intros [?|(t & _ & ->)]%elem_of_registered; [auto | apply lower_idem].
  - destruct (PostUpdate.tags u) as [tags|]; [|apply Hst].
    intros [?|(t & _ & ->)]%elem_of_registered; [auto | apply lower_idem].
Qed.

Lemma reachable_registry_lower st :
  reachable st -> forall x, x ∈ tags_db st -> lower x = x.
Proof.
  induction 1 as [|st r _ IH]; [|by apply step_registry_lower].
  intros x Hx. cbn in Hx. set_solver.
Qed.


(** ** Posts of one tag *)


(** ** Query validation and page lengths *)

Lemma length_paginated_posts (l : list Post.t) page page_size :
  1 <= page -> 1 <= page_size ->
  Z.of_nat (length (paginated_posts l page page_size))
  = Z.min page_size (Z.max 0 (Z.of_nat (length l) - (page - 1) * page_size)).
Proof.
  intros Hp Hs. rewrite paginated_posts_window by done.
  rewrite length_take, length_drop. nia.
Qed.

(** [get_posts] refuses a page below one and a page size outside 1..100
    with [ValidationError]. An accepted call that answers returns
    [min page_size (T - (page - 1) * page_size)] items, none when that is
    negative, [T] being the reported total: every page before the last is
    full, the last one holds between one and [page_size] items, and the
    pages after it are empty. *)
Theorem get_posts_page_length st page page_size tag published search :
  (page < 1 \/ page_size < 1 \/ 100 < page_size ->
     get_posts page page_size tag published search st = (Err ValidationError, st))
  /\ (1 <= page -> 1 <= page_size <= 100 ->
      forall r, (get_posts page page_size tag published search st).1 = Ok r ->
        let n := Z.of_nat (length (PaginatedPosts.items r)) in
        let T := PaginatedPosts.total r in
        let pages := PaginatedPosts.total_pages r in
        n = Z.min page_size (Z.max 0 (T - (page - 1) * page_size))
        /\ (page < pages -> n = page_size)
        /\ (page = pages -> 1 <= n <= page_size)
        /\ (pages < page -> n = 0)
        /\ (pages = 0 <-> T = 0)).
Proof.
  split.
  - intros Hbad. unfold get_posts.
    assert ((page <? 1) || (page_size <? 1) || (100 <? page_size) = true) as ->; [|done].
    rewrite !orb_true_iff, !Z.ltb_lt. tauto.
  - intros Hp Hs r. rewrite get_posts_eval by done. cbv zeta. cbn [fst].
    destruct (forallb _ _); [|done]. intros [= <-].
    cbn [PaginatedPosts.items PaginatedPosts.total PaginatedPosts.total_pages].
    rewrite length_paginated_posts by lia.
    pose proof (calculate_pagination_ceil
                  (Z.of_nat (length (filtered_sorted st tag published search)))
                  page page_size ltac:(lia)) as Hc.
    cbv zeta in Hc. split_and!; try nia.
Qed.

(** ** Image files *)

Lemma split_not_nil sep s : split sep s <> [].
Proof.
  destruct s as [|c s]; simpl; [done|].
  destruct (Ascii.eqb c sep); [done|]. by destruct (split sep s).
Qed.

Lemma split_lacks sep s : lacks sep s -> split sep s = [s].
Proof.
  unfold lacks. induction s as [|c s IH]; simpl; [done|]. intros Hn.
  destruct (Ascii.eqb_spec c sep) as [->|_]; [tauto|].
  rewrite IH by tauto. done.
Qed.

Lemma split_app_sep sep s1 s2 :
  exists l, split sep (s1 +:+ String sep s2) = l ++ split sep s2 /\ l <> [].
Proof.
  induction s1 as [|c s1 (l & IH & Hl)].
  - exists [EmptyString]. rewrite append_nil_l. cbn [split]. by rewrite Ascii.eqb_refl.
  - rewrite append_cons. cbn [split]. rewrite IH.
    destruct (Ascii.eqb c sep); [by exists (EmptyString :: l)|].
    destruct l as [|h t]; [done|]. by exists (String c h :: t).
Qed.

Lemma last_app_not_nil {A} (l1 l2 : list A) d :
  l2 <> [] -> List.last (l1 ++ l2) d = List.last l2 d.
Proof.
  intros Hl2. induction l1 as [|x l1 IH]; [done|].
  cbn [app List.last]. rewrite IH. destruct (l1 ++ l2) eqn:Happ; [|done].
  by apply app_eq_nil in Happ as [_ ?].
Qed.

(** The last segment of a path is what follows its last separator. *)
Lemma last_segment_app_sep sep s1 s2 :
  lacks sep s2 -> last_segment sep (s1 +:+ String sep s2) = s2.
Proof.
  intros Hs2. unfold last_segment.
  destruct (split_app_sep sep s1 s2) as (l & -> & _).
  rewrite last_app_not_nil by apply split_not_nil. by rewrite split_lacks.
Qed.

Lemma lacks_app sep s1 s2 : lacks sep s1 -> lacks sep s2 -> lacks sep (s1 +:+ s2).
Proof.
  unfold lacks. induction s1 as [|c s1 IH]; [done|].
  rewrite append_cons. simpl. intros H1 H2 [?|?]; [tauto|]. apply IH; tauto.
Qed.

Lemma In_filter_neqb (x y : string) l :
  In x (List.filter (fun f => negb (String.eqb f y)) l) <-> In x l /\ x <> y.
Proof.
  rewrite filter_In, negb_true_iff. destruct (String.eqb_spec x y); intuition congruence.
Qed.

Lemma delete_post_uploads post_id st p x :
  dict_get post_id (posts_db st) = Some p ->
  In x (uploads (delete_post post_id st).2)
  <-> In x (uploads st)
      /\ match Post.image_url p with
         | Some url => url = EmptyString \/ x <> last_segment "/"%char url
         | None => True
         end.
Proof.
  intros Hg. unfold delete_post, bind at 1. rewrite get_post_or_404_eval, Hg.
  destruct (Post.image_url p) as [[|c url]|]; cbn [str_truthy];
    unfold bind, gets, modify, ret; cbn [snd uploads]; [tauto| |tauto].
  destruct (list_in _ _) eqn:Hin; cbn [uploads set_uploads set_comments_db set_posts_db].
  - rewrite In_filter_neqb. intuition congruence.
  - split; [|tauto]. intros Hx. split; [done|]. right. intros ->.
    apply list_in_spec in Hx. congruence.
Qed.


(** An upload followed by the deletion of the post leaves no trace of the
    uploaded file, when neither the generated name nor the extension
    holds a slash: the deletion succeeds, the post is gone, the uploaded
    file is gone, and every other file is there exactly when it was there
    before the upload. The file of an earlier image of the same post is
    such another file: it stays. *)
Theorem upload_then_delete_removes_file st post_id ct fn uuid now :
  dict_get post_id (posts_db st) <> None ->
  startswith "image/" ct = true ->
  lacks "/"%char uuid ->
  lacks "/"%char (last_segment "."%char fn) ->
  let name := uuid +:+ "." +:+ last_segment "."%char fn in
  let st1 := (upload_post_image post_id ct fn uuid now st).2 in
  let st2 := (delete_post post_id st1).2 in
  (delete_post post_id st1).1 = Ok tt
  /\ dict_get post_id (posts_db st2) = None
  /\ ~ In name (uploads st2)
  /\ (forall f, f <> name -> In f (uploads st2) <-> In f (uploads st)).
Proof.
  intros Hex Hct Hu He. cbv zeta.
  destruct (dict_get post_id (posts_db st)) as [p|] eqn:Hg; [clear Hex | done].
  set (name := uuid +:+ "." +:+ last_segment "."%char fn).
  set (p1 := Post.set_updated_at now (Post.set_image_url (Some ("/uploads/" +:+ name)) p)).
  assert (lacks "/"%char name) as Hname.
  { apply lacks_app; [done|]. apply lacks_app; [|done]. unfold lacks. cbn.
    intros [[=]|[]]. }
  assert (last_segment "/"%char ("/uploads/" +:+ name) = name) as Hseg.
  { by apply (last_segment_app_sep "/"%char "/uploads" name). }
  assert (dict_get post_id
            (posts_db (upload_post_image post_id ct fn uuid now st).2) = Some p1) as Hg1.
  { rewrite (upload_post_image_eval _ _ _ _ _ _ _ Hg). cbv zeta. rewrite Hct.
    cbn [snd posts_db]. apply dict_get_set_eq. }
  assert (forall f, In f (uploads (upload_post_image post_id ct fn uuid now st).2)
                    <-> f = name \/ In f (uploads st)) as Hup.
  { intros f. rewrite (upload_post_image_eval _ _ _ _ _ _ _ Hg). cbv zeta. rewrite Hct.
    cbn [snd uploads]. fold name.
    destruct (list_in _ _) eqn:Hin; cbn [In]; [|intuition congruence].
    apply list_in_spec in Hin. intuition congruence. }
  assert (forall f, In f (uploads (delete_post post_id
                       (upload_post_image post_id ct fn uuid now st).2).2)
                    <-> (f = name \/ In f (uploads st)) /\ f <> name) as Hdel.
  { intros f. rewrite (delete_post_uploads _ _ _ _ Hg1), Hup.
    unfold p1. cbn [Post.image_url Post.set_updated_at Post.set_image_url].
    rewrite Hseg. split; [intros [? [[=]|?]]; done | tauto]. }
  destruct (delete_post_eval _ _ _ Hg1) as (files & Hd).
  split_and!.
  - by rewrite Hd.
  - rewrite Hd. cbn [snd posts_db]. apply dict_get_del_eq.
  - rewrite Hdel. tauto.
  - intros f Hf. rewrite Hdel. tauto.
Qed.

(** ** Repeating an update *)

Lemma apply_update_idem u p : apply_update u (apply_update u p) = apply_update u p.
Proof. by destruct u as [[?|] [?|] [?|] [?|]], p. Qed.

Lemma apply_update_twice u now p :
  Post.set_updated_at now (apply_update u (Post.set_updated_at now (apply_update u p)))
  = Post.set_updated_at now (apply_update u p).
Proof. by destruct u as [[?|] [?|] [?|] [?|]], p. Qed.

Lemma registered_twice (tags : list string) (s : gset string) :
  fold_left (fun s tag => s ∪ {[ lower tag ]}) tags
            (fold_left (fun s tag => s ∪ {[ lower tag ]}) tags s)
  = fold_left (fun s tag => s ∪ {[ lower tag ]}) tags s.
Proof.
  apply set_eq. intros x. rewrite !elem_of_registered. tauto.
Qed.

(** Sending the same update twice, with the same clock reading, gives the
    answer and the store of sending it once. *)
Theorem update_post_idempotent st post_id u now :
  let once := update_post post_id u now st in
  update_post post_id u now once.2 = once.
Proof.
  cbv zeta. destruct (dict_get post_id (posts_db st)) as [p|] eqn:Hg.
  - rewrite (update_post_eval _ _ _ _ _ Hg). cbv zeta. cbn [snd].
    erewrite update_post_eval; [|cbn [posts_db]; apply dict_get_set_eq].
    cbv zeta. cbn [posts_db comments_db tags_db post_counter comment_counter uploads].
    rewrite apply_update_twice, dict_set_set.
    destruct (PostUpdate.tags u); by rewrite ?registered_twice.
  - rewrite (update_post_missing _ _ _ _ Hg). cbn [snd].
    by rewrite (update_post_missing _ _ _ _ Hg).
Qed.

(** ** What a stored post and a stored comment keep *)

Lemma apply_update_stable u p :
  Post.id (apply_update u p) = Post.id p
  /\ Post.author (apply_update u p) = Post.author p
  /\ Post.created_at (apply_update u p) = Post.created_at p
  /\ Post.image_url (apply_update u p) = Post.image_url p
  /\ Post.views (apply_update u p) = Post.views p.
Proof. by destruct u as [[?|] [?|] [?|] [?|]]. Qed.

Lemma step_post_stable st r k p p' :
  k <= post_counter st ->
  dict_get k (posts_db st) = Some p ->
  dict_get k (posts_db (step st r)) = Some p' ->
  Post.id p' = Post.id p /\ Post.author p' = Post.author p
  /\ Post.created_at p' = Post.created_at p /\ Post.views p <= Post.views p'.
Proof.
  intros Hk Hp.
  destruct (step_store_step st r) as
    [|post author now _ _ _|k0 ct fn uuid now q _ Hg _|k0 q _ Hg|k0 u now q _ Hg
    |k0 q files _ Hg|k0 comment now q _ Hg|cid _ _];
    unfold set_posts_db, set_comments_db; cbn [posts_db].
  - rewrite Hp. intros [= <-]. split_and!; done || lia.
  - rewrite dict_get_set_ne, Hp by lia. intros [= <-]. split_and!; done || lia.
  - destruct (decide (k0 = k)) as [->|Hne].
    + rewrite dict_get_set_eq. intros [= <-]. rewrite Hp in Hg. injection Hg as <-.
      cbn. split_and!; done || lia.
    + rewrite dict_get_set_ne, Hp by done. intros [= <-]. split_and!; done || lia.
  - destruct (decide (k0 = k)) as [->|Hne].
    + rewrite dict_get_set_eq. intros [= <-]. rewrite Hp in Hg. injection Hg as <-.
      unfold viewed. cbn. split_and!; done || lia.
    + rewrite dict_get_set_ne, Hp by done. intros [= <-]. split_and!; done || lia.
  - destruct (decide (k0 = k)) as [->|Hne].
    + rewrite dict_get_set_eq. intros [= <-]. rewrite Hp in Hg. injection Hg as <-.
      destruct (apply_update_stable u p) as (Hi & Ha & Hc & _ & Hv).
      destruct (apply_update u p). cbn in *. split_and!; done || lia.
    + rewrite dict_get_set_ne, Hp by done. intros [= <-]. split_and!; done || lia.
  - destruct (decide (k0 = k)) as [->|Hne].
    + by rewrite dict_get_del_eq.
    + rewrite dict_get_del_ne, Hp by done. intros [= <-]. split_and!; done || lia.
  - rewrite Hp. intros [= <-]. split_and!; done || lia.
  - rewrite Hp. intros [= <-]. split_and!; done || lia.
Qed.

Lemma step_comment_stable st r k c c' :
  k <= comment_counter st ->
  dict_get k (comments_db st) = Some c ->
  dict_get k (comments_db (step st r)) = Some c' -> c' = c.
Proof.
  intros Hk Hc.
  destruct (step_store_step st r) as
    [|post author now _ _ _|k0 ct fn uuid now q _ Hg _|k0 q _ Hg|k0 u now q _ Hg
    |k0 q files _ Hg|k0 comment now q _ Hg|cid _ _];
    unfold set_posts_db, set_comments_db; cbn [comments_db];
    try (rewrite Hc; by intros [= <-]).
  - destruct (in_dec Z.eq_dec k (dict_keys (List.filter
                 (fun kc => Comment.post_id kc.2 =? k0) (comments_db st)))) as [Hin|Hn].
    + by rewrite dict_get_del_fold_in.
    + rewrite dict_get_del_fold_notin, Hc by done. by intros [= <-].
  - rewrite dict_get_set_ne, Hc by lia. by intros [= <-].
  - destruct (decide (cid = k)) as [->|Hne].
    + by rewrite dict_get_del_eq.
    + rewrite dict_get_del_ne, Hc by done. by intros [= <-].
Qed.

(** Over any sequence of requests, starting from a store whose ids are
    bounded by the counters: a post that is stored before and after has
    kept its id, its author and its creation time, and its view counter
    has not gone down; a comment that is stored before and after is
    unchanged. No route edits a comment, and no route resets a view
    counter or hands the id of a stored post to another one. *)
Theorem stored_fields_are_stable st rs :
  ids_bounded st ->
  (forall k p p',
     dict_get k (posts_db st) = Some p ->
     dict_get k (posts_db (run st rs)) = Some p' ->
     Post.id p' = Post.id p /\ Post.author p' = Post.author p
     /\ Post.created_at p' = Post.created_at p /\ Post.views p <= Post.views p')
  /\ (forall k c c',
     dict_get k (comments_db st) = Some c ->
     dict_get k (comments_db (run st rs)) = Some c' -> c' = c).
Proof.
  intros (_ & _ & Hbp & Hbc). split.
  - intros k p p' Hp. revert p'.
    induction rs as [|r rs IH] using rev_ind; intros p'.
    + cbn. rewrite Hp. intros [= <-]. split_and!; done || lia.
    + rewrite run_snoc. intros Hp'.
      destruct (dict_get k (posts_db (run st rs))) as [q|] eqn:Hq.
      * destruct (IH q eq_refl) as (<- & <- & <- & Hv).
        pose proof (run_counters_mono st rs) as [Hm _].
        apply dict_get_In, Hbp in Hp.
        destruct (step_post_stable (run st rs) r k q p') as (-> & -> & -> & Hv');
          [lia|done|done|].
        split_and!; try done. lia.
      * rewrite step_retired_id in Hp'; [done| |done].
        pose proof (run_counters_mono st rs) as [Hm _].
        apply dict_get_In, Hbp in Hp. lia.
  - intros k c c' Hc. revert c'.
    assert (k <= comment_counter st) as Hk by (apply dict_get_In, Hbc in Hc; lia).
    induction rs as [|r rs IH] using rev_ind; intros c'.
    + cbn. rewrite Hc. by intros [= <-].
    + rewrite run_snoc. intros Hc'.
      pose proof (run_counters_mono st rs) as [_ Hm].
      destruct (dict_get k (comments_db (run st rs))) as [q|] eqn:Hq.
      * rewrite (IH q eq_refl) in Hq.
        eapply step_comment_stable; [|exact Hq|exact Hc']. lia.
      * rewrite step_retired_comment_id in Hc'; [done|lia|done].
Qed.

(** ** A view in the statistics *)

Lemma dict_values_set_map {V B} (f : V -> B) (k : Z) v v' (d : list (Z * V)) :
  dict_get k d = Some v -> f v' = f v ->
  map f (dict_values (dict_set k v' d)) = map f (dict_values d).
Proof.
  intros Hg Hf. unfold dict_values. induction d as [|[k0 v0] d IH]; [done|].
  cbn [dict_get] in Hg. cbn [dict_set].
  destruct (decide (k = k0)) as [->|Hne].
  - injection Hg as ->. cbn [map snd]. by rewrite Hf.
  - cbn [map snd]. f_equal. by apply IH.
Qed.

Lemma sum_views_set (k : Z) p p' (d : list (Z * Post.t)) :
  dict_get k d = Some p ->
  sum_views (dict_values (dict_set k p' d))
  = sum_views (dict_values d) + (Post.views p' - Post.views p).
Proof.
  intros Hg. unfold dict_values. induction d as [|[k0 v0] d IH]; [done|].
  cbn [dict_get] in Hg. cbn [dict_set].
  destruct (decide (k = k0)) as [->|Hne].
  - injection Hg as ->. cbn. lia.
  - cbn [map sum_views snd]. rewrite IH by done. lia.
Qed.

Lemma filter_length_map {A} (f : A -> bool) (l l' : list A) :
  map f l = map f l' -> length (List.filter f l) = length (List.filter f l').
Proof.
  revert l'. induction l as [|x l IH]; intros [|y l']; try done.
  cbn [map List.filter]. intros [= -> Hl]. destruct (f y); cbn; by rewrite (IH l').
Qed.

Lemma count_tags_from (l : list Post.t) acc :
  fold_left (fun tag_counts post => fold_left count_tag (Post.tags post) tag_counts) l acc
  = fold_left (fun tag_counts tags => fold_left count_tag tags tag_counts)
              (map Post.tags l) acc.
Proof. revert acc. induction l as [|p l IH]; intros acc; [done|]. cbn. apply IH. Qed.

(** A successful lookup by [get_post], and also one that fails on a blank
    title, shows in the statistics as one more view and as nothing else:
    the counts of posts, of published posts, of drafts and of comments
    and the popular tags are those of before. *)
Theorem get_post_counts_in_stats st post_id :
  dict_get post_id (posts_db st) <> None ->
  let st' := (get_post post_id st).2 in
  exists s s',
    get_stats st = (Ok s, st) /\ get_stats st' = (Ok s', st')
    /\ PostStats.total_views s' = PostStats.total_views s + 1
    /\ PostStats.total_posts s' = PostStats.total_posts s
    /\ PostStats.published_posts s' = PostStats.published_posts s
    /\ PostStats.draft_posts s' = PostStats.draft_posts s
    /\ PostStats.total_comments s' = PostStats.total_comments s
    /\ PostStats.popular_tags s' = PostStats.popular_tags s.
Proof.
  intros Hex. cbv zeta.
  destruct (dict_get post_id (posts_db st)) as [p|] eqn:Hg; [clear Hex | done].
  rewrite (get_post_eval _ _ _ Hg). cbn [snd].
  do 2 eexists. rewrite !get_stats_eval. split; [reflexivity|]. split; [reflexivity|].
  unfold set_posts_db.
  cbn [PostStats.total_views PostStats.total_posts PostStats.published_posts
       PostStats.draft_posts PostStats.total_comments PostStats.popular_tags
       posts_db comments_db].
  split_and!.
  - rewrite !fold_left_add_views, (sum_views_set _ _ _ _ Hg).
    unfold viewed. cbn. lia.
  - f_equal. rewrite <- !(length_map Post.id).
    by rewrite (dict_values_set_map Post.id _ _ _ _ Hg).
  - f_equal. apply filter_length_map.
    by rewrite (dict_values_set_map Post.published _ _ _ _ Hg).
  - f_equal. apply (filter_length_map (fun p => negb (Post.published p))).
    by rewrite (dict_values_set_map (fun p => negb (Post.published p)) _ _ _ _ Hg).
  - done.
  - unfold count_tags. rewrite !count_tags_from.
    by rewrite (dict_values_set_map Post.tags _ _ _ _ Hg).
Qed.

(** ** Further sample evaluations *)

(** Reading a post that [store1] does not hold changes nothing. *)
Lemma refused_requests_change_nothing_witness :
  (handle (GetPost 7) store1).2 = store1.
Proof.
  apply (refused_requests_change_nothing store1 (GetPost 7) NotFoundError);
    [reflexivity | discriminate].
Defined.


(** The statistics route leaves [store2] as it is. *)
Lemma read_only_routes_keep_store_witness : (handle GetStats store2).2 = store2.
Proof. apply read_only_routes_keep_store. reflexivity. Defined.

(** Post 1 of [store1] gets the image [cat.png] and is deleted: the file
    [u1.png] is gone. *)
Lemma upload_then_delete_removes_file_witness :
  let st1 := (upload_post_image 1 "image/png" "cat.png" "u1" 30 store1).2 in
  let st2 := (delete_post 1 st1).2 in
  (delete_post 1 st1).1 = Ok tt
  /\ dict_get 1 (posts_db st2) = None
  /\ ~ In "u1.png" (uploads st2)
  /\ (forall f, f <> "u1.png" -> In f (uploads st2) <-> In f (uploads store1)).
Proof.
  apply (upload_then_delete_removes_file store1 1 "image/png" "cat.png" "u1" 30);
    [discriminate | reflexivity
     | unfold lacks; simpl; intuition discriminate
     | unfold lacks; simpl; intuition discriminate].
Defined.

(** Post 1 of [store1], read once and then given a whitespace title, is
    still post 1 by alice, created at time 10. *)
Lemma stored_fields_are_stable_witness :
  exists p p',
    dict_get 1 (posts_db store1) = Some p
    /\ dict_get 1 (posts_db (run store1 [GetPost 1; UpdatePost 1 blank_title_update 20]))
       = Some p'
    /\ Post.id p' = Post.id p /\ Post.author p' = Post.author p
    /\ Post.created_at p' = Post.created_at p /\ Post.views p <= Post.views p'.
Proof.
  exists (Post.mk 1 "alice" None 0 10 10 "Hello" "World" ["Go"; "go"] false),
         (Post.mk 1 "alice" None 1 10 20 "   " "World" ["Go"; "go"] false).
  split; [reflexivity|]. split; [reflexivity|].
  refine (proj1 (stored_fields_are_stable store1
                   [GetPost 1; UpdatePost 1 blank_title_update 20] _)
                1 _ _ eq_refl eq_refl).
  split_and!; [done | done | intros k q [[= <- <-]|[]]; done | intros k c []].
Defined.

(** Reading post 1 of [store1] adds one view to the statistics. *)
Lemma get_post_counts_in_stats_witness :
  let st' := (get_post 1 store1).2 in
  exists s s',
    get_stats store1 = (Ok s, store1) /\ get_stats st' = (Ok s', st')
    /\ PostStats.total_views s' = PostStats.total_views s + 1
    /\ PostStats.total_posts s' = PostStats.total_posts s
    /\ PostStats.published_posts s' = PostStats.published_posts s
    /\ PostStats.draft_posts s' = PostStats.draft_posts s
    /\ PostStats.total_comments s' = PostStats.total_comments s
    /\ PostStats.popular_tags s' = PostStats.popular_tags s.
Proof. apply (get_post_counts_in_stats store1 1). discriminate. Defined.
